(** * Batch file splitting: [batch_loading/file_splitter.py]

    A shallow embedding of [FileSplitter.split_file],
    [FileSplitter.split_file_by_lines], [FileSplitter.create_batch_summary]
    and [split_multiple_files], and the properties the specification
    states about them.

    Modelling choices, all visible in the definitions below:
    - a file system is a finite map from paths to the bytes of regular
      files; directories are implicit, so the [mkdir(parents=True,
      exist_ok=True)] calls have no visible effect and a file can always
      be created inside the directory that was just ensured;
    - a path is the list of its components ([pathlib.Path.parts]); the
      conversions [Path(source_file)] and [str(batch_path)] are left out,
      and a table name is empty or one plain component (no separator, not
      a dot name);
    - a Python [str] is represented by its UTF-8 encoding, so
      [len(line.encode('utf-8'))] is the length of the byte list;
    - the host is POSIX: [os.linesep] is a single line feed;
    - the interpreter is a 64-bit CPython: [Py_ssize_t] ends at
      [2^63 - 1], and a text file is decoded in chunks of 8192 bytes
      while the loop over its lines runs;
    - the host never runs out of memory or of disk space: there is no
      [MemoryError] and no [OSError] on writing;
    - a source holds the bytes it has when it is opened: no source is
      one of the batch files of its own call;
    - a size in megabytes rounded to two places is written as its
      number of hundredths.

    The development also embeds the simulated loader of
    [batch_loading/snowflake_loader.py] ([load_batch_file],
    [load_table_batches], [compare_loading_performance]) and
    [run_batch_loading_pipeline] of
    [batch_loading/batch_load_orchestrator.py], with these further
    choices:
    - floating-point numbers and [datetime] values are parameters of the
      model, with the clock as a sequence of readings;
    - the configuration has its [file_configs] with all three keys of
      every entry;
    - a [glob] sees regular files only, and table names hold no wildcard
      characters;
    - what is printed is left out throughout. *)

From Stdlib Require Import ZArith List Lia String Strings.Byte.
From stdpp Require Import base gmap list strings pretty sorting.
From Equations Require Import Equations.

Local Open Scope Z_scope.

(** ** Text streams *)

Module Text.

Abbreviation line := (list byte).

Definition LF : byte := x0a.
Definition CR : byte := x0d.

Definition between (lo hi : N) (b : byte) : bool :=
  ((lo <=? to_N b) && (to_N b <=? hi))%N.

Definition continuation (b : byte) : bool := between 0x80 0xBF b.

(** Range of the second byte of a three-byte sequence: no overlong form
    after E0, no surrogate after ED. *)
Definition second_of_three (b0 b1 : byte) : bool :=
  if Byte.eqb b0 xe0 then between 0xA0 0xBF b1
  else if Byte.eqb b0 xed then between 0x80 0x9F b1
  else continuation b1.

(** Range of the second byte of a four-byte sequence: no overlong form
    after F0, nothing above U+10FFFF after F4. *)
Definition second_of_four (b0 b1 : byte) : bool :=
  if Byte.eqb b0 xf0 then between 0x90 0xBF b1
  else if Byte.eqb b0 xf4 then between 0x80 0x8F b1
  else continuation b1.

(** What the strict ['utf-8'] codec accepts. *)
Fixpoint valid_utf8 (s : list byte) : bool :=
  match s with
  | [] => true
  | b0 :: s1 =>
    if between 0x00 0x7F b0 then valid_utf8 s1
    else if between 0xC2 0xDF b0 then
      match s1 with
      | b1 :: s2 => continuation b1 && valid_utf8 s2
      | _ => false
      end
    else if between 0xE0 0xEF b0 then
      match s1 with
      | b1 :: b2 :: s3 =>
        second_of_three b0 b1 && continuation b2 && valid_utf8 s3
      | _ => false
      end
    else if between 0xF0 0xF4 b0 then
      match s1 with
      | b1 :: b2 :: b3 :: s4 =>
        second_of_four b0 b1 && continuation b2 && continuation b3
        && valid_utf8 s4
      | _ => false
      end
    else false
  end.

(** How far the strict decoder gets: through the whole input; up to a
    sequence that no further byte can repair, after [consumed] bytes of
    complete characters, the offence being visible once [needed] bytes
    of the input are seen; or up to a sequence that the end of the input
    cuts short. *)
Inductive scan_result :=
| Valid
| Invalid (consumed needed : nat)
| Truncated (consumed : nat).

Definition shift (n : nat) (r : scan_result) : scan_result :=
  match r with
  | Valid => Valid
  | Invalid consumed needed => Invalid (n + consumed) (n + needed)
  | Truncated consumed => Truncated (n + consumed)
  end.

Fixpoint scan (s : list byte) : scan_result :=
  match s with
  | [] => Valid
  | b0 :: s1 =>
    if between 0x00 0x7F b0 then shift 1 (scan s1)
    else if between 0xC2 0xDF b0 then
      match s1 with
      | [] => Truncated 0
      | b1 :: s2 =>
        if continuation b1 then shift 2 (scan s2) else Invalid 0 2
      end
    else if between 0xE0 0xEF b0 then
      match s1 with
      | [] => Truncated 0
      | b1 :: s2 =>
        if second_of_three b0 b1 then
          match s2 with
          | [] => Truncated 0
          | b2 :: s3 =>
            if continuation b2 then shift 3 (scan s3) else Invalid 0 3
          end
        else Invalid 0 2
      end
    else if between 0xF0 0xF4 b0 then
      match s1 with
      | [] => Truncated 0
      | b1 :: s2 =>
        if second_of_four b0 b1 then
          match s2 with
          | [] => Truncated 0
          | b2 :: s3 =>
            if continuation b2 then
              match s3 with
              | [] => Truncated 0
              | b3 :: s4 =>
                if continuation b3 then shift 4 (scan s4) else Invalid 0 4
              end
            else Invalid 0 3
          end
        else Invalid 0 2
      end
    else Invalid 0 1
  end.

(** Iterating over a file opened with [open(path, 'r', encoding='utf-8')]:
    the default [newline=None] is universal-newlines mode, where CR LF and
    a lone CR both end a line and are handed to the program as LF.  The
    last line keeps whatever it has when the file does not end in a line
    terminator. CR and LF are never part of a multi-byte sequence, so the
    translation can be done on the encoded text. *)
Fixpoint readlines (s : list byte) : list line :=
  match s with
  | [] => []
  | b :: r =>
    if Byte.eqb b LF then [LF] :: readlines r
    else if Byte.eqb b CR then
      [LF] :: readlines (match r with
                         | b' :: r' => if Byte.eqb b' LF then r' else r
                         | [] => r
                         end)
    else match readlines r with
         | [] => [[b]]
         | l :: ls => (b :: l) :: ls
         end
  end.

(** The text reader takes the file in chunks of this many bytes
    ([TextIOWrapper._CHUNK_SIZE]) and decodes each chunk as it comes. *)
Definition chunk_size : nat := Z.to_nat 8192.

(** The bytes that were decoded when the decoder fails. A sequence that
    the end of the input cuts short fails after the last chunk. Any
    other offence fails in the chunk that holds the byte which reveals
    it: the chunks before that one were decoded, up to a sequence they
    leave incomplete. *)
Definition decoded_before_error (s : list byte) (r : scan_result)
    : list byte :=
  match r with
  | Valid => s
  | Truncated consumed => take consumed s
  | Invalid consumed needed =>
    let seen := ((needed - 1) / chunk_size * chunk_size)%nat in
    match scan (take seen s) with
    | Truncated complete => take complete s
    | _ => take seen s
    end
  end.

(** A CR at the end of what was decoded is held back until the next
    character shows whether a LF follows. *)
Definition hold_cr (s : list byte) : list byte :=
  match last s with
  | Some b => if Byte.eqb b CR then removelast s else s
  | None => s
  end.

Definition complete (l : line) : bool :=
  match last l with
  | Some b => Byte.eqb b LF
  | None => false
  end.

(** [for line in source]: the lines that the loop body sees, and whether
    the iteration ends in a [UnicodeDecodeError]. A line is handed over
    as soon as it is complete in what was decoded; when the decoder
    fails, the line that was being assembled is lost. *)
Definition iterate (s : list byte) : list line * bool :=
  match scan s with
  | Valid => (readlines s, false)
  | r => (List.filter complete (readlines (hold_cr (decoded_before_error s r))),
          true)
  end.

(** [os.linesep] on the modelled host. *)
Definition linesep : list byte := [LF].

(** Writing to a file opened with [open(path, 'w', encoding='utf-8')]:
    with [newline=None] every LF is replaced by [os.linesep]. *)
Definition write_text (s : list byte) : list byte :=
  flat_map (fun b => if Byte.eqb b LF then linesep else [b]) s.


(** The lines of a file after its first line. *)
Definition data_lines (s : list byte) : list line := tail (readlines s).

Definition nonempty {A} (l : list A) : bool :=
  match l with [] => false | _ => true end.

End Text.

Import Text.

(** ** Files, exceptions and computations *)

Abbreviation Path := (list string).
Abbreviation filesystem := (gmap (list string) (list byte)).

(** [Path.__truediv__] with a relative, separator-free operand; joining
    the empty string returns the path itself. *)
Definition joinpath (p : Path) (name : string) : Path :=
  if decide (name = ""%string) then p else p ++ [name].

(** The class of the exception raised. *)
Inductive exn :=
| FileNotFoundError | UnicodeDecodeError | ValueError | OverflowError.


Inductive outcome (S A : Type) :=
| Return (a : A) (s : S)
| Raise (e : exn) (s : S).
Arguments Return {S A} a s.
Arguments Raise {S A} e s.

(** A computation over a state [S] that returns or raises. *)
Definition M (S A : Type) := S -> outcome S A.

#[global] Instance M_ret {S} : MRet (M S) := fun A a s => Return a s.
#[global] Instance M_bind {S} : MBind (M S) := fun A B f m s =>
  match m s with
  | Return a s' => f a s'
  | Raise e s' => Raise e s'
  end.
Definition raise {S A} (e : exn) : M S A := fun s => Raise e s.
(** [try: body except Exception: handler] *)
Definition try_except {S A} (body : M S A) (handler : exn -> M S A) : M S A :=
  fun s => match body s with
           | Return a s' => Return a s'
           | Raise e s' => handler e s'
           end.

(** ** [class FileSplitter] *)

(** [__init__] stores [Path(target_directory)] and ensures the directory
    exists. *)
Record FileSplitter := { target_directory : Path }.

(** [f"{table_name}_batch_{batch_number}.csv"] *)
Definition batch_filename (table_name : string) (batch_number : Z) : string :=
  table_name +:+ "_batch_" +:+ pretty batch_number +:+ ".csv".

(** [table_dir / batch_filename] with
    [table_dir = self.target_directory / table_name] *)
Definition batch_path (self : FileSplitter) (table_name : string)
    (batch_number : Z) : Path :=
  joinpath (joinpath (target_directory self) table_name)
           (batch_filename table_name batch_number).

(** *** [split_file_by_lines] *)

(** The file system and the variables of the [with open(...) as source]
    block. *)
Record loop_state := {
  filesys : filesystem;
  batch_files : list Path;
  batch_number : Z;
  current_batch_size : Z;
  batch_lines : list line;
  header : option line
}.

(** [if header: batch_file.write(header)]: nothing is written for [None]
    and for the empty string. *)
Definition header_text (h : option line) : list byte :=
  match h with
  | Some (b :: l) => b :: l
  | _ => []
  end.

(** Open [batch_path] for writing, write the header and the accumulated
    lines, append the path to [batch_files]. *)
Definition write_batch (self : FileSplitter) (table_name : string)
    (st : loop_state) : loop_state :=
  let p := batch_path self table_name (batch_number st) in
  {| filesys := <[p := write_text (header_text (header st)
                                 ++ concat (batch_lines st))]> (filesys st);
     batch_files := batch_files st ++ [p];
     batch_number := batch_number st;
     current_batch_size := current_batch_size st;
     batch_lines := batch_lines st;
     header := header st |}.

(** [batch_number += 1; batch_lines = []; current_batch_size = 0] *)
Definition next_batch (st : loop_state) : loop_state :=
  {| filesys := filesys st;
     batch_files := batch_files st;
     batch_number := batch_number st + 1;
     current_batch_size := 0;
     batch_lines := [];
     header := header st |}.

(** One iteration of [for line_number, line in enumerate(source)]. *)
Definition loop_body (self : FileSplitter) (table_name : string)
    (batch_size_bytes : Z) (st : loop_state) (it : nat * line) : loop_state :=
  let '(line_number, line) := it in
  if (line_number =? 0)%nat then
    {| filesys := filesys st;
       batch_files := batch_files st;
       batch_number := batch_number st;
       current_batch_size := current_batch_size st;
       batch_lines := batch_lines st;
       header := Some line |}
  else
    let line_size := Z.of_nat (length line) in
    let st1 :=
      if (current_batch_size st + line_size >? batch_size_bytes)
         && nonempty (batch_lines st)
      then next_batch (write_batch self table_name st)
      else st in
    {| filesys := filesys st1;
       batch_files := batch_files st1;
       batch_number := batch_number st1;
       current_batch_size := current_batch_size st1 + line_size;
       batch_lines := batch_lines st1 ++ [line];
       header := header st1 |}.

Definition enumerate {A} (l : list A) : list (nat * A) := imap pair l.

Definition initial_state (fs : filesystem) : loop_state :=
  {| filesys := fs;
     batch_files := [];
     batch_number := 1;
     current_batch_size := 0;
     batch_lines := [];
     header := None |}.

(** The loop over the lines of the opened source, then
    [if batch_lines:] the last batch. *)
Definition split_lines (self : FileSplitter) (table_name : string)
    (batch_size_bytes : Z) (source : list line) : M filesystem (list Path) :=
  fun fs =>
    let st := foldl (loop_body self table_name batch_size_bytes)
                    (initial_state fs) (enumerate source) in
    let st' := if nonempty (batch_lines st)
               then write_batch self table_name st else st in
    Return (batch_files st') (filesys st').

(** The state of the block when the loop over [source] is left, by
    exhaustion or by an exception. *)
Definition run_loop (self : FileSplitter) (table_name : string)
    (batch_size_bytes : Z) (source : list line) (fs : filesystem)
    : loop_state :=
  foldl (loop_body self table_name batch_size_bytes) (initial_state fs)
        (enumerate source).

(** The body of the method once the source is known to exist and
    [batch_size_bytes] is computed. The source is decoded while the loop
    runs: a [UnicodeDecodeError] leaves the method after the lines
    before it were processed, with the batches flushed so far on disk
    and the pending lines unwritten. *)
Definition split_opened (self : FileSplitter) (content : list byte)
    (batch_size_bytes : Z) (table_name : string)
    : M filesystem (list Path) :=
  let '(source, decode_error) := iterate content in
  if decode_error
  then fun fs =>
         Raise UnicodeDecodeError
               (filesys (run_loop self table_name batch_size_bytes source fs))
  else split_lines self table_name batch_size_bytes source.

Definition split_file_by_lines (self : FileSplitter) (source_file : Path)
    (batch_size_mb : Z) (table_name : string) : M filesystem (list Path) :=
  fun fs =>
    match fs !! source_file with
    | None => Raise FileNotFoundError fs
    | Some content =>
      let batch_size_bytes := batch_size_mb * 1024 * 1024 in
      split_opened self content batch_size_bytes table_name fs
    end.

(** *** [split_file] *)

(** The largest [Py_ssize_t] of the 64-bit interpreter, and the bytes
    that a [bytes] object takes besides its content. *)
Definition PY_SSIZE_T_MAX : Z := 2 ^ 63 - 1.
Definition PyBytesObject_SIZE : Z := 33.

(** [BufferedReader.read(size)] on the unread rest of a regular file: the
    chunk and what is left. A size that does not fit [Py_ssize_t] is an
    [OverflowError], another size below [-1] a [ValueError]; for a
    positive size the result is allocated before anything is read, and a
    [bytes] object too long for [Py_ssize_t] is an [OverflowError]
    again. *)
Definition read (size : Z) (rest : list byte)
    : exn + (list byte * list byte) :=
  if (size <? - PY_SSIZE_T_MAX - 1) || (PY_SSIZE_T_MAX <? size)
  then inl OverflowError
  else if size <? -1 then inl ValueError
  else if size =? -1 then inr (rest, [])
  else if size =? 0 then inr ([], rest)
  else if PY_SSIZE_T_MAX - PyBytesObject_SIZE <? size then inl OverflowError
  else inr (take (Z.to_nat size) rest, drop (Z.to_nat size) rest).

(** A value together with the equation that names it, for the
    termination argument of the loop below. *)
Definition inspect {A} (x : A) : {y : A | x = y} := exist _ x eq_refl.

(** [while True: chunk = source.read(batch_size_bytes); ...] *)
Equations chunk_loop (self : FileSplitter) (table_name : string)
    (batch_size_bytes : Z) (rest : list byte) (batch_number : Z)
    (batch_files : list Path) (fs : filesystem)
    : outcome filesystem (list Path) by wf (length rest) lt :=
chunk_loop self table_name n rest k acc fs with inspect (read n rest) := {
  | exist _ (inl e) _ => Raise e fs
  | exist _ (inr ([], _)) _ => Return acc fs
  | exist _ (inr (b :: chunk, rest')) Hread =>
    let p := batch_path self table_name k in
    chunk_loop self table_name n rest' (k + 1) (acc ++ [p])
               (<[p := b :: chunk]> fs) }.
Next Obligation.
  intros. clear chunk_loop. symmetry in Hread. unfold read in Hread.
  destruct ((n <? - PY_SSIZE_T_MAX - 1) || (PY_SSIZE_T_MAX <? n));
    [discriminate Hread|].
  destruct (n <? -1); [discriminate Hread|].
  destruct (n =? -1).
  - inversion Hread; subst. simpl. lia.
  - destruct (n =? 0) eqn:Hzero; [discriminate Hread|].
    destruct (PY_SSIZE_T_MAX - PyBytesObject_SIZE <? n);
      [discriminate Hread|].
    inversion Hread as [[Ht Hd]]. rewrite length_drop.
    destruct (Z.to_nat n), rest; simpl in *; try discriminate; lia.
Qed.

Definition split_file (self : FileSplitter) (source_file : Path)
    (batch_size_mb : Z) (table_name : string) : M filesystem (list Path) :=
  fun fs =>
    match fs !! source_file with
    | None => Raise FileNotFoundError fs
    | Some content =>
      let batch_size_bytes := batch_size_mb * 1024 * 1024 in
      chunk_loop self table_name batch_size_bytes content 1 [] fs
    end.

(** [Path(file_path).stat().st_size] *)
Definition st_size (file_path : Path) : M filesystem Z :=
  fun fs => match fs !! file_path with
            | Some content => Return (Z.of_nat (length content)) fs
            | None => Raise FileNotFoundError fs
            end.

(** The integer nearest to [num / den], the even one of two that are
    equally near. *)
Definition round_half_even (num den : Z) : Z :=
  let q := num / den in
  let r := num mod den in
  if (den <? 2 * r) || ((2 * r =? den) && Z.odd q) then q + 1 else q.

(** [round(size_mb, 2)] for [size_mb = st_size / (1024 * 1024)], written
    as a count of hundredths. Below 2^53 bytes the quotient is exact in
    floating point, and [round] gives the float nearest to the nearest
    number with two decimal places, ties going to the even hundredth. *)
Definition round_size_mb (st_size : Z) : Z :=
  round_half_even (st_size * 100) (1024 * 1024).

(** The summary dictionary; the sizes in it are counts of hundredths of
    a megabyte. *)
Record summary := {
  total_batches : nat;
  batch_details : list (Path * Z);
  total_size_mb : Z
}.

(** [for batch_file in batch_files: size_mb = self.get_file_size_mb(...);
    summary['batch_details'].append(...)] *)
Fixpoint stat_all (batch_files : list Path) : M filesystem (list (Path * Z)) :=
  match batch_files with
  | [] => mret []
  | batch_file :: rest =>
    size ← st_size batch_file;
    details ← stat_all rest;
    mret ((batch_file, round_size_mb size) :: details)
  end.

(** The total is the rounded floating-point sum of the rounded sizes; it
    is the sum of the hundredths as long as the error of that sum stays
    below half a hundredth, which it does while the number of files
    times the total in megabytes is below 2^45. *)
Definition create_batch_summary (self : FileSplitter)
    (batch_files : list Path) : M filesystem summary :=
  details ← stat_all batch_files;
  mret {| total_batches := length batch_files;
          batch_details := details;
          total_size_mb := foldl Z.add 0 (map snd details) |}.

(** ** [split_multiple_files] *)

(** A Python [dict] with string keys: insertion-ordered, and assigning to
    a key that is present replaces its value where it stands. *)
Abbreviation dict := (list (string * list Path)).

Fixpoint dict_set (k : string) (v : list Path) (d : dict) : dict :=
  match d with
  | [] => [(k, v)]
  | (k', v') :: d' =>
    if decide (k = k') then (k, v) :: d' else (k', v') :: dict_set k v d'
  end.

Fixpoint dict_get (k : string) (d : dict) : option (list Path) :=
  match d with
  | [] => None
  | (k', v') :: d' => if decide (k = k') then Some v' else dict_get k d'
  end.

(** The file system and the local [results] of the function. *)
Record planner_state := {
  disk : filesystem;
  results : dict
}.

Definition on_disk {A} (m : M filesystem A) : M planner_state A :=
  fun s => match m (disk s) with
           | Return a fs => Return a {| disk := fs; results := results s |}
           | Raise e fs => Raise e {| disk := fs; results := results s |}
           end.

(** [results[table_name] = batch_files] *)
Definition set_result (table_name : string) (batch_files : list Path)
    : M planner_state unit :=
  fun s => Return tt {| disk := disk s;
                        results := dict_set table_name batch_files (results s) |}.

(** [for source_file, batch_size_mb, table_name in file_configs: try: ...
    except Exception as e: ...]; the [print] calls are left out. *)
Fixpoint process_configs (splitter : FileSplitter)
    (file_configs : list (Path * Z * string)) : M planner_state unit :=
  match file_configs with
  | [] => mret tt
  | (source_file, batch_size_mb, table_name) :: rest =>
    _ ← try_except
          (batch_files ← on_disk (split_file_by_lines splitter source_file
                                     batch_size_mb table_name);
           _ ← set_result table_name batch_files;
           _ ← on_disk (create_batch_summary splitter batch_files);
           mret tt)
          (fun e => set_result table_name []);
    process_configs splitter rest
  end.

Definition split_multiple_files (file_configs : list (Path * Z * string))
    (target_directory : Path) : M filesystem dict :=
  fun fs =>
    let splitter := {| target_directory := target_directory |} in
    match process_configs splitter file_configs
            {| disk := fs; results := [] |} with
    | Return _ s => Return (results s) (disk s)
    | Raise e s => Raise e (disk s)
    end.

(** ** Numbers and time *)

(** Floating-point numbers and [datetime] values are not modelled; the
    loader is written over any interpretation of them. [clock n] is
    what the [n]-th call of [datetime.now()] returns,
    [total_seconds start finish] is [(finish - start).total_seconds()],
    [of_int] is the conversion that arithmetic applies to an [int]
    operand, [truediv] is [/] and [lt a b] is [a < b] (so [a > b] is
    [lt b a]). *)
Module Py.

Class Runtime := {
  time : Type;
  number : Type;
  clock : nat -> time;
  total_seconds : time -> time -> number;
  of_int : Z -> number;
  add : number -> number -> number;
  truediv : number -> number -> number;
  lt : number -> number -> bool
}.

(** [sum(xs)]: the additions start from the integer 0 and go from left
    to right. *)
Definition sum `{Runtime} (xs : list number) : number :=
  foldl add (of_int 0) xs.

End Py.

(** ** [snowflake_loader.py] *)

Module Loader.

(** The file system, and how many times the clock has been read. *)
Record world := {
  files : filesystem;
  ticks : nat
}.

(** [datetime.now()] *)
Definition now `{Py.Runtime} : M world Py.time :=
  fun w => Return (Py.clock (ticks w))
                  {| files := files w; ticks := S (ticks w) |}.

Definition on_files {A} (m : M filesystem A) : M world A :=
  fun w => match m (files w) with
           | Return a fs => Return a {| files := fs; ticks := ticks w |}
           | Raise e fs => Raise e {| files := fs; ticks := ticks w |}
           end.

(** [@dataclass class LoadResult]; [error_message] holds the exception
    in place of its text. *)
Module LoadResult.
Record t `{Py.Runtime} := mk {
  table_name : string;
  batch_file : Path;
  batch_number : Z;
  start_time : Py.time;
  end_time : Py.time;
  duration_seconds : Py.number;
  rows_loaded : Z;
  file_size_mb : Py.number;
  success : bool;
  error_message : option exn
}.
End LoadResult.

(** [@dataclass class TableLoadSummary] *)
Module TableLoadSummary.
Record t `{Py.Runtime} := mk {
  table_name : string;
  batch_size_mb : Z;
  total_batches : nat;
  total_duration_seconds : Py.number;
  total_rows_loaded : Z;
  total_size_mb : Py.number;
  avg_duration_per_batch : Py.number;
  throughput_mb_per_second : Py.number;
  load_results : list LoadResult.t
}.
End TableLoadSummary.

(** [class SnowflakeBatchLoader]; [__init__] sets [connection] to
    [None], and nothing ever sets it to anything else. *)
Record SnowflakeBatchLoader := {
  connection_params : list (string * string);
  warehouse_size : string;
  connection : option unit
}.

Definition connect (self : SnowflakeBatchLoader) : bool := true.

Definition disconnect (self : SnowflakeBatchLoader) : SnowflakeBatchLoader :=
  match connection self with
  | Some _ => {| connection_params := connection_params self;
                 warehouse_size := warehouse_size self;
                 connection := None |}
  | None => self
  end.

Definition create_stage (self : SnowflakeBatchLoader)
    (stage_name stage_path : string) : bool := true.

(** [put_file] reads the size of the file for its message; that is all
    it does. *)
Definition put_file (self : SnowflakeBatchLoader) (local_file : Path)
    (stage_name : string) : M world bool :=
  _ ← on_files (st_size local_file);
  mret true.

(** The dictionary [copy_into_table] returns has these three keys. *)
Record copy_result := {
  rows_loaded : Z;
  rows_parsed : Z;
  status : string
}.

Definition copy_into_table (self : SnowflakeBatchLoader)
    (table_name stage_name file_pattern : string) : copy_result :=
  {| rows_loaded := 10000; rows_parsed := 10000; status := "LOADED" |}.

(** [Path(batch_file).name] *)
Definition name (p : Path) : string := default ""%string (last p).

Definition load_batch_file `{Py.Runtime} (self : SnowflakeBatchLoader)
    (batch_file : Path) (table_name : string) (batch_number : Z)
    (stage_name : string) : M world LoadResult.t :=
  start_time ← now;
  size ← on_files (st_size batch_file);
  let file_size_mb := Py.truediv (Py.of_int size) (Py.of_int (1024 * 1024)) in
  try_except
    (_ ← put_file self batch_file stage_name;
     let file_name := name batch_file in
     let result := copy_into_table self table_name stage_name file_name in
     end_time ← now;
     let duration := Py.total_seconds start_time end_time in
     mret (LoadResult.mk _ table_name batch_file batch_number start_time
                         end_time duration (rows_loaded result) file_size_mb
                         true None))
    (fun e =>
       end_time ← now;
       let duration := Py.total_seconds start_time end_time in
       mret (LoadResult.mk _ table_name batch_file batch_number start_time
                           end_time duration 0 file_size_mb false (Some e))).

(** [for i, batch_file in enumerate(batch_files, 1): ...
    load_results.append(result)] *)
Fixpoint load_each `{Py.Runtime} (self : SnowflakeBatchLoader)
    (table_name stage_name : string) (i : Z) (batch_files : list Path)
    (load_results : list LoadResult.t) : M world (list LoadResult.t) :=
  match batch_files with
  | [] => mret load_results
  | batch_file :: rest =>
    result ← load_batch_file self batch_file table_name i stage_name;
    load_each self table_name stage_name (i + 1) rest (load_results ++ [result])
  end.

Definition load_table_batches `{Py.Runtime} (self : SnowflakeBatchLoader)
    (table_name : string) (batch_files : list Path) (batch_size_mb : Z)
    : M world TableLoadSummary.t :=
  let stage_name := (table_name +:+ "_stage")%string in
  let _ := create_stage self stage_name ("./" +:+ table_name) in
  load_results ← load_each self table_name stage_name 1 batch_files [];
  let total_duration :=
    Py.sum (map LoadResult.duration_seconds load_results) in
  let total_rows := foldl Z.add 0 (map LoadResult.rows_loaded load_results) in
  let total_size := Py.sum (map LoadResult.file_size_mb load_results) in
  let avg_duration :=
    match load_results with
    | [] => Py.of_int 0
    | _ => Py.truediv total_duration
                      (Py.of_int (Z.of_nat (length load_results)))
    end in
  let throughput :=
    if Py.lt (Py.of_int 0) total_duration
    then Py.truediv total_size total_duration
    else Py.of_int 0 in
  mret (TableLoadSummary.mk _ table_name batch_size_mb (length batch_files)
                            total_duration total_rows total_size avg_duration
                            throughput load_results).

(** One entry of [comparison['tables']]. *)
Module TableInfo.
Record t `{Py.Runtime} := mk {
  table_name : string;
  batch_size_mb : Z;
  total_batches : nat;
  total_duration_seconds : Py.number;
  total_rows_loaded : Z;
  total_size_mb : Py.number;
  avg_duration_per_batch : Py.number;
  throughput_mb_per_second : Py.number
}.
End TableInfo.

(** The dictionary [compare_loading_performance] returns. *)
Module Comparison.
Record t `{Py.Runtime} := mk {
  tables : list TableInfo.t;
  fastest_table : option string;
  highest_throughput : option string;
  total_load_time : Py.number
}.
End Comparison.

(** [min(first :: rest, key=key)]: an item replaces the best one so far
    when its key is less. *)
Definition min_key `{Py.Runtime} {A} (key : A -> Py.number) (first : A)
    (rest : list A) : A :=
  foldl (fun best item => if Py.lt (key item) (key best) then item else best)
        first rest.

(** [max(first :: rest, key=key)]: an item replaces the best one so far
    when its key is greater. *)
Definition max_key `{Py.Runtime} {A} (key : A -> Py.number) (first : A)
    (rest : list A) : A :=
  foldl (fun best item => if Py.lt (key best) (key item) then item else best)
        first rest.

Definition table_info `{Py.Runtime} (summary : TableLoadSummary.t)
    : TableInfo.t :=
  TableInfo.mk _ (TableLoadSummary.table_name summary)
               (TableLoadSummary.batch_size_mb summary)
               (TableLoadSummary.total_batches summary)
               (TableLoadSummary.total_duration_seconds summary)
               (TableLoadSummary.total_rows_loaded summary)
               (TableLoadSummary.total_size_mb summary)
               (TableLoadSummary.avg_duration_per_batch summary)
               (TableLoadSummary.throughput_mb_per_second summary).

Definition compare_loading_performance `{Py.Runtime}
    (summaries : list TableLoadSummary.t) : Comparison.t :=
  let tables := map table_info summaries in
  let total_load_time :=
    foldl Py.add (Py.of_int 0)
          (map TableLoadSummary.total_duration_seconds summaries) in
  match summaries with
  | [] => Comparison.mk _ tables None None total_load_time
  | first :: rest =>
    let fastest :=
      min_key TableLoadSummary.total_duration_seconds first rest in
    let highest_throughput :=
      max_key TableLoadSummary.throughput_mb_per_second first rest in
    Comparison.mk _ tables (Some (TableLoadSummary.table_name fastest))
                  (Some (TableLoadSummary.table_name highest_throughput))
                  total_load_time
  end.

End Loader.

(** ** [batch_load_orchestrator.py] *)

Module Orchestrator.

(** The configuration dictionary. [file_configs] is present and each of
    its entries has the keys [source_file], [batch_size_mb] and
    [table_name]; the other keys are looked up with [config.get]. *)
Module Config.
Record t := mk {
  target_directory : option Path;
  warehouse_size : option string;
  snowflake_connection : option (list (string * string));
  file_configs : list (Path * Z * string)
}.
End Config.

(** The dictionary [run_batch_loading_pipeline] returns; [timestamp]
    holds the reading of the clock in place of its ISO text, and the
    empty dictionary that [comparison] starts with is [None]. *)
Module Results.
Record t `{Py.Runtime} := mk {
  timestamp : Py.time;
  warehouse_size : string;
  split_results : dict;
  load_summaries : list Loader.TableLoadSummary.t;
  comparison : option Loader.Comparison.t
}.
End Results.

(** [config.get('target_directory', './batch_output')] as a path *)
Definition target_dir (config : Config.t) : Path :=
  default ["batch_output"%string] (Config.target_directory config).

(** The order of [pathlib] paths: component by component, each
    component as a string. *)
Fixpoint path_compare (p q : Path) : comparison :=
  match p, q with
  | [], [] => Eq
  | [], _ :: _ => Lt
  | _ :: _, [] => Gt
  | a :: p', b :: q' =>
    match String.compare a b with
    | Eq => path_compare p' q'
    | c => c
    end
  end.

Definition path_le (p q : Path) : Prop := path_compare p q <> Gt.

#[global] Instance path_le_dec p q : Decision (path_le p q).
Proof. unfold path_le. apply _. Defined.

(** [sorted(paths)] *)
Definition sorted (paths : list Path) : list Path := merge_sort path_le paths.

Fixpoint strip_prefix (pre s : string) : option string :=
  match pre, s with
  | EmptyString, _ => Some s
  | String a pre', String b s' =>
    if Ascii.eqb a b then strip_prefix pre' s' else None
  | String _ _, EmptyString => None
  end.

Fixpoint ends_with (suffix s : string) : bool :=
  if String.eqb s suffix then true
  else match s with
       | EmptyString => false
       | String _ s' => ends_with suffix s'
       end.

(** Whether a file name matches [f"{table_name}_batch_*.csv"], for a
    table name without wildcard characters. *)
Definition matches (table_name file_name : string) : bool :=
  match strip_prefix (table_name +:+ "_batch_") file_name with
  | Some rest => ends_with ".csv" rest
  | None => false
  end.

Definition in_glob (table_dir : Path) (table_name : string) (p : Path)
    : bool :=
  match last p with
  | Some file_name =>
    bool_decide (p = table_dir ++ [file_name]) && matches table_name file_name
  | None => false
  end.

(** [table_dir.glob(f"{table_name}_batch_*.csv")]: the matching files
    of the directory, in the order the file system lists them. *)
Definition glob (table_dir : Path) (table_name : string) (fs : filesystem)
    : list Path :=
  filter (fun p => in_glob table_dir table_name p) (map_to_list fs).*1.

(** The batch files that a load-only run finds for a table. *)
Definition existing_batch_files (config : Config.t) (table_name : string)
    (fs : filesystem) : list Path :=
  let table_dir := joinpath (target_dir config) table_name in
  sorted (glob table_dir table_name fs).

(** The world and the local [results] of the function. *)
Record state `{Py.Runtime} := {
  world : Loader.world;
  results : Results.t
}.

Definition on_world `{Py.Runtime} {A} (m : M Loader.world A) : M state A :=
  fun s => match m (world s) with
           | Return a w => Return a {| world := w; results := results s |}
           | Raise e w => Raise e {| world := w; results := results s |}
           end.

(** [results['load_summaries'].append(summary)] *)
Definition append_summary `{Py.Runtime} (summary : Loader.TableLoadSummary.t)
    : M state unit :=
  fun s =>
    let r := results s in
    Return tt {| world := world s;
                 results :=
                   Results.mk _ (Results.timestamp r)
                     (Results.warehouse_size r) (Results.split_results r)
                     (Results.load_summaries r ++ [summary])
                     (Results.comparison r) |}.

(** The batch files of a table: found on disk in a load-only run, taken
    from the split results otherwise. *)
Definition batch_files_of `{Py.Runtime} (config : Config.t)
    (load_only : bool) (table_name : string) : M state (list Path) :=
  fun s =>
    Return (if load_only
            then existing_batch_files config table_name
                                      (Loader.files (world s))
            else default [] (dict_get table_name
                                      (Results.split_results (results s))))
           s.

(** [for fc in config['file_configs']: ...]; a table without batch
    files is skipped. *)
Fixpoint load_tables `{Py.Runtime} (loader : Loader.SnowflakeBatchLoader)
    (config : Config.t) (load_only : bool)
    (file_configs : list (Path * Z * string)) : M state unit :=
  match file_configs with
  | [] => mret tt
  | (_, batch_size_mb, table_name) :: rest =>
    batch_files ← batch_files_of config load_only table_name;
    _ ← match batch_files with
        | [] => mret tt
        | _ :: _ =>
          summary ← on_world (Loader.load_table_batches loader table_name
                                batch_files batch_size_mb);
          append_summary summary
        end;
    load_tables loader config load_only rest
  end.

(** Phase 2: [try: ... except Exception as e: ...]. The result tells
    whether the loop ran to its end. *)
Definition load_phase `{Py.Runtime} (config : Config.t) (load_only : bool)
    : M state bool :=
  let loader :=
    {| Loader.connection_params :=
         default [] (Config.snowflake_connection config);
       Loader.warehouse_size :=
         default "XS"%string (Config.warehouse_size config);
       Loader.connection := None |} in
  try_except
    (let _ := Loader.connect loader in
     _ ← load_tables loader config load_only (Config.file_configs config);
     let _ := Loader.disconnect loader in
     mret true)
    (fun e =>
       let _ := Loader.disconnect loader in
       mret false).

Definition run_batch_loading_pipeline `{Py.Runtime} (config : Config.t)
    (split_only load_only : bool) : M Loader.world Results.t :=
  timestamp ← Loader.now;
  let warehouse_size := default "XS"%string (Config.warehouse_size config) in
  split_results ←
    (if negb load_only
     then Loader.on_files (split_multiple_files (Config.file_configs config)
                                                (target_dir config))
     else mret []);
  let started :=
    Results.mk _ timestamp warehouse_size split_results [] None in
  if split_only then mret started
  else
    fun w =>
      match load_phase config load_only {| world := w; results := started |} with
      | Return completed s =>
        let r := results s in
        Return (if completed
                then match Results.load_summaries r with
                     | [] => r
                     | _ :: _ =>
                       Results.mk _ (Results.timestamp r)
                         (Results.warehouse_size r) (Results.split_results r)
                         (Results.load_summaries r)
                         (Some (Loader.compare_loading_performance
                                  (Results.load_summaries r)))
                     end
                else r)
               (world s)
      | Raise e s => Raise e (world s)
      end.

End Orchestrator.

(** ** The rule of the specification *)

(** The flush-before-append rule in the words of the specification: a
    state [{pendingLines, pendingBytes, sequenceNumber}] and a transition
    [accept] that returns the next state and the batch it closed, if any. *)
Module Rule.

Record state := {
  pendingLines : list line;
  pendingBytes : Z;
  sequenceNumber : Z
}.

Definition start : state :=
  {| pendingLines := []; pendingBytes := 0; sequenceNumber := 1 |}.

Definition accept (targetBytesPerBatch : Z) (s : state) (l : line)
    : state * option (Z * list line) :=
  let lineSize := Z.of_nat (length l) in
  if negb (pendingBytes s =? 0)
     && (pendingBytes s + lineSize >? targetBytesPerBatch)
  then ({| pendingLines := [l];
           pendingBytes := 0 + lineSize;
           sequenceNumber := sequenceNumber s + 1 |},
        Some (sequenceNumber s, pendingLines s))
  else ({| pendingLines := pendingLines s ++ [l];
           pendingBytes := pendingBytes s + lineSize;
           sequenceNumber := sequenceNumber s |},
        None).

(** Feed the data lines in order, then flush what is pending. *)
Fixpoint run (targetBytesPerBatch : Z) (s : state) (ls : list line)
    : list (Z * list line) :=
  match ls with
  | [] => if nonempty (pendingLines s)
          then [(sequenceNumber s, pendingLines s)] else []
  | l :: ls' =>
    match accept targetBytesPerBatch s l with
    | (s', Some closed) => closed :: run targetBytesPerBatch s' ls'
    | (s', None) => run targetBytesPerBatch s' ls'
    end
  end.

End Rule.

(** ** Auxiliary notions for the proofs *)

(** A byte that is neither line terminator. *)
Definition body_byte (b : byte) : Prop := b <> LF /\ b <> CR.

(** A line as the text stream hands it over: closed by one LF, or, for
    the last line of a file without final terminator, not closed. *)
Definition terminated (l : line) : Prop :=
  exists t, l = t ++ [LF] /\ Forall body_byte t.
Definition unterminated (l : line) : Prop :=
  l <> [] /\ Forall body_byte l.

Inductive text_lines : list line -> Prop :=
| text_nil : text_lines []
| text_last l : unterminated l -> text_lines [l]
| text_cons l ls : terminated l -> text_lines ls -> text_lines (l :: ls).

(** The batches the loop closes, as a function of the pending lines, their
    size and the lines still to come. *)
Fixpoint batches (batch_size_bytes : Z) (pending : list line) (size : Z)
    (ls : list line) : list (list line) :=
  match ls with
  | [] => if nonempty pending then [pending] else []
  | l :: ls' =>
    let line_size := Z.of_nat (length l) in
    if (size + line_size >? batch_size_bytes) && nonempty pending
    then pending :: batches batch_size_bytes [l] (0 + line_size) ls'
    else batches batch_size_bytes (pending ++ [l]) (size + line_size) ls'
  end.

(** Writing the groups [gs] as batches number [k], [k + 1], ... *)
Fixpoint write_groups (self : FileSplitter) (table_name : string)
    (h : list byte) (k : Z) (gs : list (list line))
    (acc : list Path) (fs : filesystem) : list Path * filesystem :=
  match gs with
  | [] => (acc, fs)
  | g :: gs' =>
    let p := batch_path self table_name k in
    write_groups self table_name h (k + 1) gs' (acc ++ [p])
                 (<[p := h ++ concat g]> fs)
  end.

(** The paths of [n] batches numbered from [k]. *)
Fixpoint batch_paths (self : FileSplitter) (table_name : string) (k : Z)
    (n : nat) : list Path :=
  match n with
  | O => []
  | S n' => batch_path self table_name k :: batch_paths self table_name (k + 1) n'
  end.

(** Batches with their sequence numbers, from [k] on. *)
Fixpoint number_from (k : Z) (gs : list (list line)) : list (Z * list line) :=
  match gs with
  | [] => []
  | g :: gs' => (k, g) :: number_from (k + 1) gs'
  end.

(** The table name of a config. *)
Definition label (cfg : Path * Z * string) : string := cfg.2.

(** The state after one iteration of the loop over the configs. *)
Definition after_config (splitter : FileSplitter) (s : planner_state)
    (cfg : Path * Z * string) : planner_state :=
  let '(source_file, batch_size_mb, table_name) := cfg in
  match split_file_by_lines splitter source_file batch_size_mb table_name
                            (disk s) with
  | Return batch_files fs' =>
    {| disk := fs'; results := dict_set table_name batch_files (results s) |}
  | Raise _ fs' =>
    {| disk := fs'; results := dict_set table_name [] (results s) |}
  end.

(** Keys in the order in which they were first inserted. *)
Definition add_key (k : string) (ks : list string) : list string :=
  if decide (k ∈ ks) then ks else ks ++ [k].
Definition first_occurrences (ks : list string) : list string :=
  foldl (fun seen k => add_key k seen) [] ks.

(** The size in bytes of a group of lines. *)
Definition group_size (g : list line) : Z := Z.of_nat (length (concat g)).

(** The state of the loop as a pair of result and file system. *)
Definition finish (self : FileSplitter) (table_name : string)
    (st : loop_state) : list Path * filesystem :=
  let st' := if nonempty (batch_lines st)
             then write_batch self table_name st else st in
  (batch_files st', filesys st').

(** The batch files that the load phase takes for a table, given the
    files and the split results at its start. *)
Definition batch_list (config : Orchestrator.Config.t) (load_only : bool)
    (fs : filesystem) (split : dict) (table_name : string) : list Path :=
  if load_only then Orchestrator.existing_batch_files config table_name fs
  else default [] (dict_get table_name split).

(** What the summary of a config's table holds. *)
Definition loaded `{Py.Runtime} (batches : string -> list Path)
    (cfg : Path * Z * string) (summary : Loader.TableLoadSummary.t) : Prop :=
  Loader.TableLoadSummary.table_name summary = cfg.2
  /\ Loader.TableLoadSummary.batch_size_mb summary = cfg.1.2
  /\ Loader.TableLoadSummary.total_batches summary = length (batches cfg.2)
  /\ Loader.TableLoadSummary.total_rows_loaded summary
     = 10000 * Z.of_nat (length (batches cfg.2))
  /\ map Loader.LoadResult.batch_file
         (Loader.TableLoadSummary.load_results summary)
     = batches cfg.2.

(** The comparison that the results carry after a complete run. *)
Definition final_comparison `{Py.Runtime}
    (summaries : list Loader.TableLoadSummary.t)
    : option Loader.Comparison.t :=
  match summaries with
  | [] => None
  | _ :: _ => Some (Loader.compare_loading_performance summaries)
  end.

(** ** Sample data *)

Module Sample.

Definition bytes (s : string) : list byte := list_byte_of_string s.

Definition splitter : FileSplitter :=
  {| target_directory := ["batch_output"%string] |}.

Definition orders_csv : Path := ["data"; "orders.csv"]%string.
Definition missing_csv : Path := ["data"; "missing.csv"]%string.
Definition items_csv : Path := ["data"; "items.csv"]%string.
Definition legacy_csv : Path := ["data"; "legacy.csv"]%string.
Definition header_only_csv : Path := ["data"; "empty.csv"]%string.
Definition one_row_csv : Path := ["data"; "one.csv"]%string.

(** A header and three rows, LF line ends. *)
Definition orders : list byte :=
  bytes "id,qty" ++ [LF] ++ bytes "1,5" ++ [LF] ++ bytes "2,7" ++ [LF]
  ++ bytes "3,9" ++ [LF].

(** A header and two rows, the last one without line end. *)
Definition items : list byte :=
  bytes "sku,name" ++ [LF] ++ bytes "7,caf" ++ [xc3; xa9] ++ [LF]
  ++ bytes "8,tea".

(** A header and two rows, CR LF line ends. *)
Definition legacy : list byte :=
  bytes "a,b,c" ++ [CR; LF] ++ bytes "1,2,3" ++ [CR; LF]
  ++ bytes "4,5,6" ++ [CR; LF].

Definition header_only : list byte := bytes "a,b,c" ++ [LF].

Definition one_row : list byte :=
  bytes "a,b,c" ++ [LF] ++ bytes "1,2,3" ++ [LF].

(** A header [a,b,c] and five rows of 40 bytes each. *)
Definition row40 (d : string) : list byte :=
  bytes d ++ bytes ",0123456789,0123456789,0123456789,abc" ++ [LF].
Definition forty : list byte :=
  bytes "a,b,c" ++ [LF] ++ row40 "01" ++ row40 "02" ++ row40 "03"
  ++ row40 "04" ++ row40 "05".


Definition batch_1 (table_name : string) : Path :=
  ["batch_output"; table_name; table_name +:+ "_batch_1.csv"]%string.
Definition batch_2 (table_name : string) : Path :=
  ["batch_output"; table_name; table_name +:+ "_batch_2.csv"]%string.
Definition batch_3 (table_name : string) : Path :=
  ["batch_output"; table_name; table_name +:+ "_batch_3.csv"]%string.

Definition disk : filesystem :=
  <[orders_csv := orders]> (<[items_csv := items]> (<[legacy_csv := legacy]>
  (<[header_only_csv := header_only]> (<[one_row_csv := one_row]> ∅)))).

End Sample.

(** More sample data: [orders] split line by line, and a source that is
    not UTF-8. *)
Module Fixture.

Definition header : list byte := Sample.bytes "id,qty" ++ [LF].
Definition row1 : list byte := Sample.bytes "1,5" ++ [LF].
Definition row2 : list byte := Sample.bytes "2,7" ++ [LF].
Definition row3 : list byte := Sample.bytes "3,9" ++ [LF].

Definition orders_batches : list Path :=
  [Sample.batch_1 "orders"; Sample.batch_2 "orders"; Sample.batch_3 "orders"].

(** The disk after [orders] was split with a batch size of zero. *)
Definition orders_by_line : filesystem :=
  <[Sample.batch_3 "orders" := header ++ row3]>
    (<[Sample.batch_2 "orders" := header ++ row2]>
       (<[Sample.batch_1 "orders" := header ++ row1]> Sample.disk)).


(** A header, two rows and a long line without end that fills the
    first chunk of the text reader; the byte after it is not UTF-8. *)
Definition late_error_csv : Path := ["data"; "late.csv"]%string.
Definition late_error : list byte :=
  Sample.bytes "h" ++ [LF] ++ Sample.bytes "1" ++ [LF]
  ++ Sample.bytes "2" ++ [LF] ++ replicate (Z.to_nat 8186) "x"%byte ++ [xff].
Definition late_error_disk : filesystem := <[late_error_csv := late_error]> ∅.

Definition three_configs : list (Path * Z * string) :=
  [(Sample.orders_csv, 1, "orders"%string);
   (Sample.items_csv, 1, "items"%string);
   (Sample.missing_csv, 1, "missing"%string)].

(** The disk after [three_configs]. *)
Definition three_disk : filesystem :=
  <[Sample.batch_1 "items" := Sample.items]>
    (<[Sample.batch_1 "orders" := Sample.orders]> Sample.disk).

End Fixture.

(** Sample data for the loader and the pipeline. *)
Module LoadFixture.

(** Whole seconds: the [n]-th reading of the clock is [n]. *)
Definition runtime : Py.Runtime :=
  {| Py.time := Z;
     Py.number := Z;
     Py.clock := Z.of_nat;
     Py.total_seconds := fun start finish => finish - start;
     Py.of_int := fun z => z;
     Py.add := Z.add;
     Py.truediv := Z.div;
     Py.lt := Z.ltb |}.

Definition loader : Loader.SnowflakeBatchLoader :=
  {| Loader.connection_params := [];
     Loader.warehouse_size := "XS";
     Loader.connection := None |}.

Definition config : Orchestrator.Config.t :=
  Orchestrator.Config.mk None None None Fixture.three_configs.

Definition world : Loader.world :=
  {| Loader.files := Sample.disk; Loader.ticks := 0 |}.

(** The world after [Fixture.three_configs] were split. *)
Definition split_world : Loader.world :=
  {| Loader.files := Fixture.three_disk; Loader.ticks := 0 |}.

(** The mapping that [split_multiple_files] returns for
    [Fixture.three_configs]. *)
Definition three_split : dict :=
  [("orders"%string, [Sample.batch_1 "orders"]);
   ("items"%string, [Sample.batch_1 "items"]);
   ("missing"%string, [])].

(** A summary with a name, a total duration and a throughput. *)
Definition summary_of (table_name : string) (seconds throughput : Z)
    : @Loader.TableLoadSummary.t runtime :=
  Loader.TableLoadSummary.mk runtime table_name 1 1 seconds 10000 1 seconds
                             throughput [].

Definition summaries : list (@Loader.TableLoadSummary.t runtime) :=
  [summary_of "a" 5 2; summary_of "b" 3 4; summary_of "c" 3 4].


End LoadFixture.

(** ** Text streams: lemmas *)

Section TextLemmas.

Lemma eqb_LF b : Byte.eqb b LF = true <-> b = LF.
Proof. split; [apply byte_dec_bl | apply byte_dec_lb]. Qed.

Lemma eqb_CR b : Byte.eqb b CR = true <-> b = CR.
Proof. split; [apply byte_dec_bl | apply byte_dec_lb]. Qed.

Lemma body_byte_eqb b :
  body_byte b -> Byte.eqb b LF = false /\ Byte.eqb b CR = false.
Proof.
  intros [H1 H2]; split.
  - destruct (Byte.eqb b LF) eqn:E; [|done]. by apply eqb_LF in E.
  - destruct (Byte.eqb b CR) eqn:E; [|done]. by apply eqb_CR in E.
Qed.

Lemma eqb_body_byte b :
  Byte.eqb b LF = false -> Byte.eqb b CR = false -> body_byte b.
Proof.
  intros H1 H2; split; intros ->; [by rewrite (proj2 (eqb_LF LF)) in H1
                                  | by rewrite (proj2 (eqb_CR CR)) in H2].
Qed.

Lemma write_text_id s : write_text s = s.
Proof.
  induction s as [|b s IH]; [done|]. unfold write_text in *. simpl.
  rewrite IH. destruct (Byte.eqb b LF) eqn:E; [|done].
  apply eqb_LF in E. by subst.
Qed.

Lemma readlines_body b r :
  body_byte b ->
  readlines (b :: r) = match readlines r with
                       | [] => [[b]]
                       | l :: ls => (b :: l) :: ls
                       end.
Proof. intros [E1 E2]%body_byte_eqb. simpl. by rewrite E1, E2. Qed.

(** Reading back a closed line followed by anything. *)
Lemma readlines_terminated t rest :
  Forall body_byte t ->
  readlines (t ++ LF :: rest) = (t ++ [LF]) :: readlines rest.
Proof.
  induction 1 as [|b t Hb _ IH]; [done|].
  change ((b :: t) ++ LF :: rest) with (b :: (t ++ LF :: rest)).
  by rewrite readlines_body, IH.
Qed.

(** Reading back an open last line. *)
Lemma readlines_unterminated l : unterminated l -> readlines l = [l].
Proof.
  intros [Hne Hb]. induction Hb as [|b t Hb Ht IH]; [done|].
  rewrite readlines_body by done.
  destruct t as [|b' t]; [done|]. by rewrite IH.
Qed.

(** What the stream yields is a list of text lines. *)
Lemma readlines_text_lines s : text_lines (readlines s).
Proof.
  remember (length s) as n eqn:Hn.
  revert s Hn. induction n as [n IH] using lt_wf_ind. intros s ->.
  destruct s as [|b r]; [constructor|]. simpl.
  destruct (Byte.eqb b LF) eqn:ELF.
  { apply text_cons; [by exists [] | eapply IH; [|done]; simpl; lia]. }
  destruct (Byte.eqb b CR) eqn:ECR.
  { apply text_cons; [by exists []|].
    eapply IH; [|done].
    destruct r as [|b' r']; simpl; [lia|]. destruct (Byte.eqb b' LF); simpl; lia. }
  pose proof (eqb_body_byte b ELF ECR) as Hb.
  assert (text_lines (readlines r)) as H by (eapply IH; [|done]; simpl; lia).
  inversion H as [|l [Hne Hl]|l ls [t [-> Ht]] Hls].
  - apply text_last. split; [done | by constructor].
  - apply text_last. split; [done | by constructor].
  - apply text_cons; [|done]. exists (b :: t). split; [done | by constructor].
Qed.

(** Writing text lines one after the other and reading them back. *)
Lemma readlines_concat ls : text_lines ls -> readlines (concat ls) = ls.
Proof.
  induction 1 as [|l Hl|l ls [t [-> Ht]] _ IH]; [done| |].
  - simpl. rewrite app_nil_r. by apply readlines_unterminated.
  - simpl. rewrite <- app_assoc. simpl. by rewrite readlines_terminated, IH.
Qed.

Lemma text_lines_app a b :
  text_lines (a ++ b) ->
  text_lines a /\ text_lines b /\ (b <> [] -> Forall terminated a).
Proof.
  induction a as [|l a IH]; simpl; intros H.
  { repeat split; [constructor | done | by constructor]. }
  inversion H as [|l' Hl Heq|l' ls Hl Hls]; subst.
  - destruct a; [|done]. destruct b; [|done].
    repeat split; [by constructor | constructor | done].
  - destruct (IH Hls) as (Ha & Hb & Hab).
    repeat split; [by constructor | done |].
    intros Hne. constructor; auto.
Qed.

Lemma text_line_nonempty ls l : text_lines ls -> l ∈ ls -> l <> [].
Proof.
  induction 1 as [|l' [Hne _]|l' ls [t [-> _]] _ IH]; intros Hin.
  - by apply elem_of_nil in Hin.
  - apply list_elem_of_singleton in Hin. by subst.
  - apply elem_of_cons in Hin as [->|Hin]; [by destruct t | auto].
Qed.



Lemma shift_valid n r : shift n r = Valid <-> r = Valid.
Proof. by destruct r. Qed.

(** The decoder gets through the input exactly when the input is valid. *)
Lemma scan_valid_bounded n : forall s,
  (length s <= n)%nat -> scan s = Valid <-> valid_utf8 s = true.
Proof.
  induction n as [|n IH]; intros s Hlen.
  - destruct s; [done | simpl in Hlen; lia].
  - destruct s as [|b0 s1]; [done|]. cbn [length] in Hlen.
    cbn [scan valid_utf8].
    destruct (between 0 127 b0).
    { rewrite shift_valid. apply IH. lia. }
    destruct (between 194 223 b0).
    { destruct s1 as [|b1 s2]; [done|]. cbn [length] in Hlen.
      destruct (continuation b1); cbn [andb]; [|done].
      rewrite shift_valid. apply IH. lia. }
    destruct (between 224 239 b0).
    { destruct s1 as [|b1 s2]; [done|]. cbn [length] in Hlen.
      destruct (second_of_three b0 b1); cbn [andb].
      - destruct s2 as [|b2 s3]; [done|]. cbn [length] in Hlen.
        destruct (continuation b2); cbn [andb]; [|done].
        rewrite shift_valid. apply IH. lia.
      - by destruct s2. }
    destruct (between 240 244 b0); [|done].
    destruct s1 as [|b1 s2]; [done|]. cbn [length] in Hlen.
    destruct (second_of_four b0 b1); cbn [andb].
    + destruct s2 as [|b2 s3]; [done|]. cbn [length] in Hlen.
      destruct (continuation b2); cbn [andb].
      * destruct s3 as [|b3 s4]; [done|]. cbn [length] in Hlen.
        destruct (continuation b3); cbn [andb]; [|done].
        rewrite shift_valid. apply IH. lia.
      * by destruct s3.
    + destruct s2 as [|b2 [|b3 s4]]; done.
Qed.

Lemma scan_valid s : scan s = Valid <-> valid_utf8 s = true.
Proof. by apply (scan_valid_bounded (length s)). Qed.

Lemma iterate_valid s : valid_utf8 s = true -> iterate s = (readlines s, false).
Proof. intros Hv%scan_valid. unfold iterate. by rewrite Hv. Qed.

Lemma iterate_invalid s :
  valid_utf8 s = false -> exists source, iterate s = (source, true).
Proof.
  intros Hv. unfold iterate. destruct (scan s) eqn:Hs; [|by eexists..].
  apply scan_valid in Hs. congruence.
Qed.

Lemma iterate_error s source :
  iterate s = (source, true) -> valid_utf8 s = false.
Proof.
  destruct (valid_utf8 s) eqn:Hv; [|done].
  rewrite iterate_valid by done. discriminate.
Qed.

End TextLemmas.

(** ** Batch paths: lemmas *)

Section PathLemmas.

Lemma string_length_app (s t : string) :
  String.length (s +:+ t) = (String.length s + String.length t)%nat.
Proof. induction s as [|a s IH]; simpl; [done | by rewrite IH]. Qed.

Lemma string_app_inj_r (s1 s2 t : string) : s1 +:+ t = s2 +:+ t -> s1 = s2.
Proof.
  revert s2. induction s1 as [|a s1 IH]; intros [|b s2] H; simpl in *.
  - done.
  - apply (f_equal String.length) in H.
    rewrite !string_length_app in H. simpl in H. lia.
  - apply (f_equal String.length) in H.
    rewrite !string_length_app in H. simpl in H. lia.
  - injection H as -> H. by rewrite (IH _ H).
Qed.

Lemma batch_filename_nonempty table_name k :
  batch_filename table_name k <> ""%string.
Proof.
  unfold batch_filename. intros H. apply (f_equal String.length) in H.
  rewrite !string_length_app in H. simpl in H. lia.
Qed.

Lemma batch_filename_inj table_name k k' :
  batch_filename table_name k = batch_filename table_name k' -> k = k'.
Proof.
  unfold batch_filename. intros H.
  apply (inj (String.app table_name)) in H.
  apply (inj (String.app "_batch_")) in H.
  apply string_app_inj_r in H. by apply (inj pretty) in H.
Qed.

(** Two batches of one call never share a file. *)
Lemma batch_path_inj self table_name k k' :
  batch_path self table_name k = batch_path self table_name k' -> k = k'.
Proof.
  unfold batch_path, joinpath at 1 3. intros H.
  destruct (decide (batch_filename table_name k = ""%string)) as [E|_];
    [by apply batch_filename_nonempty in E|].
  destruct (decide (batch_filename table_name k' = ""%string)) as [E|_];
    [by apply batch_filename_nonempty in E|].
  apply app_inv_head in H. injection H as H. by apply batch_filename_inj in H.
Qed.

Lemma elem_of_batch_paths self table_name n k p :
  p ∈ batch_paths self table_name k n ->
  exists i, k <= i < k + Z.of_nat n /\ p = batch_path self table_name i.
Proof.
  revert k. induction n as [|n IH]; intros k; simpl.
  - by intros ?%elem_of_nil.
  - intros [->|Hin]%elem_of_cons.
    + exists k. split; [lia | done].
    + destruct (IH _ Hin) as (i & Hi & ->). exists i. split; [lia | done].
Qed.

Lemma length_batch_paths self table_name n k :
  length (batch_paths self table_name k n) = n.
Proof. revert k. induction n as [|n IH]; intros k; simpl; [done | by rewrite IH]. Qed.

End PathLemmas.

(** ** The loop of [split_file_by_lines]: lemmas *)

Section LoopLemmas.

Variable self : FileSplitter.
Variable table_name : string.

Lemma write_groups_fst h gs : forall k acc fs,
  (write_groups self table_name h k gs acc fs).1
  = acc ++ batch_paths self table_name k (length gs).
Proof.
  induction gs as [|g gs IH]; intros k acc fs; simpl.
  - by rewrite app_nil_r.
  - by rewrite IH, <- app_assoc.
Qed.

(** Files other than the batches written are left as they were. *)
Lemma write_groups_frame h gs p : forall k acc fs,
  (forall i, k <= i < k + Z.of_nat (length gs) ->
             p <> batch_path self table_name i) ->
  (write_groups self table_name h k gs acc fs).2 !! p = fs !! p.
Proof.
  induction gs as [|g gs IH]; intros k acc fs Hp; [done|].
  simpl. rewrite IH.
  - apply lookup_insert_ne. apply not_eq_sym, Hp. simpl length. lia.
  - intros i Hi. apply Hp. simpl length. lia.
Qed.

(** Every batch is on disk as the header followed by its lines. *)
Lemma write_groups_lookup h gs : forall k acc fs,
  Forall2 (fun p g => (write_groups self table_name h k gs acc fs).2 !! p
                      = Some (h ++ concat g))
          (batch_paths self table_name k (length gs)) gs.
Proof.
  induction gs as [|g gs IH]; intros k acc fs; simpl; constructor.
  - rewrite write_groups_frame; [by apply lookup_insert_eq|].
    intros i Hi E. apply batch_path_inj in E. lia.
  - apply IH.
Qed.

(** The iterations after the first one close the batches [batches]
    computes, and the last batch is written when the loop is over. *)
Lemma finish_foldl batch_size_bytes (its : list (nat * line)) : forall st,
  Forall (fun it => it.1 <> O) its ->
  finish self table_name
         (foldl (loop_body self table_name batch_size_bytes) st its)
  = write_groups self table_name (header_text (header st)) (batch_number st)
      (batches batch_size_bytes (batch_lines st) (current_batch_size st)
               (map snd its))
      (batch_files st) (filesys st).
Proof.
  induction its as [|[i l] its IH]; intros st Hits.
  - simpl. unfold finish. destruct (nonempty (batch_lines st)); [|done].
    simpl. by rewrite write_text_id.
  - inversion Hits as [|?? Hi Hits']; subst. simpl in Hi.
    destruct i as [|i]; [done|]. simpl foldl. rewrite IH by done.
    simpl map. simpl batches.
    destruct ((current_batch_size st + Z.of_nat (length l) >? batch_size_bytes)
              && nonempty (batch_lines st)); simpl; [|done].
    by rewrite write_text_id.
Qed.

Lemma enumerate_tail {A} (ls : list A) : forall g : nat -> nat,
  (forall j, g j <> O) ->
  Forall (fun it : nat * A => it.1 <> O) (imap (pair ∘ g) ls)
  /\ map snd (imap (pair ∘ g) ls) = ls.
Proof.
  induction ls as [|x ls IH]; intros g Hg; [by split; [constructor|]|].
  rewrite imap_cons. destruct (IH (g ∘ S)) as [H1 H2]; [intros j; apply Hg|].
  split.
  - constructor; [apply Hg | exact H1].
  - simpl. f_equal. exact H2.
Qed.


Lemma loop_body_keeps batch_size_bytes st it p :
  is_Some (filesys st !! p) ->
  is_Some (filesys (loop_body self table_name batch_size_bytes st it) !! p).
Proof.
  intros Hp. destruct it as [i l]. unfold loop_body.
  destruct (i =? 0)%nat; [done|]. cbv zeta. cbn [filesys].
  destruct ((current_batch_size st + Z.of_nat (length l) >? batch_size_bytes)
            && nonempty (batch_lines st)); [|done].
  cbn [next_batch write_batch filesys].
  destruct (decide (batch_path self table_name (batch_number st) = p))
    as [<-|Hne].
  - rewrite lookup_insert_eq. by eexists.
  - by rewrite lookup_insert_ne.
Qed.


Lemma run_loop_keeps batch_size_bytes source fs p :
  is_Some (fs !! p) ->
  is_Some (filesys (run_loop self table_name batch_size_bytes source fs) !! p).
Proof.
  unfold run_loop.
  change fs with (filesys (initial_state fs)) at 1.
  generalize (initial_state fs). generalize (enumerate source).
  intros its. induction its as [|it its IH]; intros st Hp; [done|].
  cbn [foldl]. apply IH. by apply loop_body_keeps.
Qed.

(** The method on an opened source, in closed form. *)
Lemma split_lines_closed batch_size_bytes (source : list line) fs :
  split_lines self table_name batch_size_bytes source fs
  = let r := write_groups self table_name (header_text (head source)) 1
               (batches batch_size_bytes [] 0 (tail source)) [] fs in
    Return r.1 r.2.
Proof.
  unfold split_lines, enumerate. destruct source as [|h ls]; [done|].
  rewrite imap_cons. simpl foldl.
  destruct (enumerate_tail ls S) as [H1 H2]; [done|].
  pose proof (finish_foldl batch_size_bytes (imap (pair ∘ S) ls)
    {| filesys := fs; batch_files := []; batch_number := 1;
       current_batch_size := 0; batch_lines := []; header := Some h |} H1) as H.
  rewrite H2 in H. simpl in H. unfold finish in H.
  simpl. by rewrite <- H.
Qed.

End LoopLemmas.

(** ** The batches: lemmas *)

Section BatchLemmas.

Lemma group_size_snoc g l :
  group_size (g ++ [l]) = group_size g + Z.of_nat (length l).
Proof.
  unfold group_size. rewrite concat_app, length_app. simpl.
  rewrite app_nil_r. lia.
Qed.

(** No line is lost, repeated, reordered or cut. *)
Lemma batches_concat T ls : forall pending size,
  concat (batches T pending size ls) = pending ++ ls.
Proof.
  induction ls as [|l ls IH]; intros pending size; simpl.
  - destruct pending; simpl; by rewrite ?app_nil_r.
  - destruct ((size + Z.of_nat (length l) >? T) && nonempty pending).
    + simpl. by rewrite IH.
    + by rewrite IH, <- app_assoc.
Qed.

Lemma batches_nonempty T ls : forall pending size,
  Forall (fun g => g <> []) (batches T pending size ls).
Proof.
  induction ls as [|l ls IH]; intros pending size; simpl.
  - destruct pending; simpl; by repeat constructor.
  - destruct ((size + Z.of_nat (length l) >? T) && nonempty pending) eqn:E.
    + apply andb_true_iff in E as [_ E]. constructor; [by destruct pending|].
      apply IH.
    + apply IH.
Qed.

(** A batch stays within the threshold unless it is a single line. *)
Lemma batches_bound T ls : forall pending size,
  size = group_size pending ->
  (group_size pending <= T \/ (length pending <= 1)%nat) ->
  Forall (fun g => group_size g <= T \/ exists l, g = [l])
         (batches T pending size ls).
Proof.
  induction ls as [|l ls IH]; intros pending size Hsize Hinv; simpl.
  - destruct pending as [|l0 pending]; simpl; constructor; [|constructor].
    destruct Hinv as [H|H]; [by left|]. right. exists l0.
    destruct pending; [done | simpl in H; lia].
  - destruct ((size + Z.of_nat (length l) >? T) && nonempty pending) eqn:E.
    + apply andb_true_iff in E as [_ E]. constructor.
      * destruct Hinv as [H|H]; [by left|]. right.
        destruct pending as [|l0 [|??]]; [done | by exists l0 | simpl in H; lia].
      * apply IH; [|right; simpl; lia].
        unfold group_size. simpl. rewrite app_nil_r. lia.
    + apply IH; [by rewrite group_size_snoc, Hsize|].
      apply andb_false_iff in E as [E|E].
      * left. rewrite group_size_snoc, <- Hsize. lia.
      * right. destruct pending; [simpl; lia | done].
Qed.

(** With a threshold that is not positive every line is a batch. *)
Lemma batches_nonpositive T ls : forall pending size,
  T <= 0 -> 0 <= size -> (length pending <= 1)%nat ->
  Forall (fun l => l <> []) ls ->
  batches T pending size ls = map (fun l => [l]) (pending ++ ls).
Proof.
  induction ls as [|l ls IH]; intros pending size HT Hsize Hlen Hls; simpl.
  - destruct pending as [|l0 [|??]]; [done | done | simpl in Hlen; lia].
  - inversion Hls as [|?? Hl Hls']; subst.
    assert ((size + Z.of_nat (length l) >? T) = true) as ->.
    { apply Z.gtb_lt. destruct l; [done|]. simpl length. lia. }
    destruct pending as [|l0 [|??]]; simpl; [| |simpl in Hlen; lia].
    + rewrite IH; [done | lia | lia | simpl; lia | done].
    + rewrite IH; [done | lia | lia | simpl; lia | done].
Qed.

(** The code tests [batch_lines], the rule tests the running count: on
    lines that are not empty the two close the same batches. *)
Lemma rule_run_batches T ls : forall pending size k,
  Forall (fun l => l <> []) pending -> Forall (fun l => l <> []) ls ->
  size = group_size pending ->
  Rule.run T {| Rule.pendingLines := pending; Rule.pendingBytes := size;
                Rule.sequenceNumber := k |} ls
  = number_from k (batches T pending size ls).
Proof.
  induction ls as [|l ls IH]; intros pending size k Hp Hls Hsize; simpl.
  - by destruct pending.
  - inversion Hls as [|?? Hl Hls']; subst.
    assert (negb (group_size pending =? 0) = nonempty pending) as Hz.
    { destruct pending as [|l0 pending]; [done|].
      inversion Hp as [|?? Hl0 _]; subst. unfold group_size. simpl.
      rewrite length_app. destruct l0; [done|]. simpl. lia. }
    unfold Rule.accept. simpl. rewrite Hz.
    rewrite (andb_comm (nonempty pending)).
    destruct ((group_size pending + Z.of_nat (length l) >? T)
              && nonempty pending); simpl.
    + f_equal. apply IH; [by repeat constructor | done |].
      unfold group_size. simpl. rewrite app_nil_r. lia.
    + apply IH; [| done | by rewrite group_size_snoc].
      apply Forall_app. split; [done | by repeat constructor].
Qed.

Lemma Forall2_and_Forall_r {A B} (P : A -> B -> Prop) (Q : B -> Prop) xs ys :
  Forall2 P xs ys -> Forall Q ys -> Forall2 (fun x y => P x y /\ Q y) xs ys.
Proof.
  induction 1 as [|x y xs ys Hxy _ IH]; intros Hq; [constructor|].
  inversion Hq; subst. constructor; auto.
Qed.

Lemma text_lines_groups gs : text_lines (concat gs) -> Forall text_lines gs.
Proof.
  induction gs as [|g gs IH]; simpl; intros H; [constructor|].
  apply text_lines_app in H as (Hg & Hgs & _). constructor; auto.
Qed.

(** A batch file reads back as the header and the lines of the batch. *)
Lemma readlines_batch h g :
  terminated h -> text_lines g -> readlines (h ++ concat g) = h :: g.
Proof.
  intros [t [-> Ht]] Hg. rewrite <- app_assoc. simpl.
  by rewrite readlines_terminated, readlines_concat.
Qed.

Lemma header_text_terminated h : terminated h -> header_text (Some h) = h.
Proof. intros [t [-> _]]. by destruct t. Qed.

(** The header of a source that has data lines is a closed line. *)
Lemma header_terminated c h ls :
  readlines c = h :: ls -> ls <> [] -> terminated h /\ text_lines ls.
Proof.
  intros E Hne. pose proof (readlines_text_lines c) as H. rewrite E in H.
  inversion H; by subst.
Qed.

End BatchLemmas.

(** ** [split_file_by_lines] in closed form *)

Section ClosedForm.

Variable self : FileSplitter.

Lemma split_file_by_lines_opened source_file batch_size_mb table_name fs c :
  fs !! source_file = Some c ->
  split_file_by_lines self source_file batch_size_mb table_name fs
  = split_opened self c (batch_size_mb * 1024 * 1024) table_name fs.
Proof. intros Hc. unfold split_file_by_lines. by rewrite Hc. Qed.

Lemma split_opened_closed c T table_name fs :
  valid_utf8 c = true ->
  split_opened self c T table_name fs
  = let r := write_groups self table_name (header_text (head (readlines c))) 1
               (batches T [] 0 (data_lines c)) [] fs in
    Return r.1 r.2.
Proof.
  intros Hv. unfold split_opened. rewrite iterate_valid by done.
  apply split_lines_closed.
Qed.

(** A source that is not valid UTF-8 raises, after the loop has run
    through the lines that were decoded before the error. *)
Lemma split_opened_invalid c T table_name fs :
  valid_utf8 c = false ->
  exists source,
    iterate c = (source, true)
    /\ split_opened self c T table_name fs
       = Raise UnicodeDecodeError
               (filesys (run_loop self table_name T source fs)).
Proof.
  intros (source & Hs)%iterate_invalid. exists source. split; [done|].
  unfold split_opened. by rewrite Hs.
Qed.

Lemma split_opened_raises c T table_name fs :
  valid_utf8 c = false ->
  exists fs', split_opened self c T table_name fs = Raise UnicodeDecodeError fs'.
Proof. intros (source & _ & ->)%(split_opened_invalid c T table_name fs). by eexists. Qed.

(** What a raising call leaves: the files that were there, and nothing
    new but batches of its table. *)
Lemma split_opened_raise_keeps c T table_name fs e fs' p :
  split_opened self c T table_name fs = Raise e fs' ->
  is_Some (fs !! p) -> is_Some (fs' !! p).
Proof.
  destruct (valid_utf8 c) eqn:Hv; [by rewrite split_opened_closed|].
  destruct (split_opened_invalid c T table_name fs Hv) as (source & _ & ->).
  intros [= _ <-]. apply run_loop_keeps.
Qed.


(** A source without data lines leaves the disk as it is. *)
Lemma split_opened_no_data c T table_name fs :
  valid_utf8 c = true -> data_lines c = [] ->
  split_opened self c T table_name fs = Return [] fs.
Proof. intros Hv Hd. rewrite split_opened_closed by done. by rewrite Hd. Qed.

(** What a successful call leaves on disk, stated on the groups of data
    lines: the paths returned are those of batches 1, 2, ... in that
    order, and each holds the header followed by its group. *)
Lemma split_opened_groups c T table_name fs h ls :
  valid_utf8 c = true -> readlines c = h :: ls -> ls <> [] ->
  exists gs fs',
    split_opened self c T table_name fs
    = Return (batch_paths self table_name 1 (length gs)) fs'
    /\ gs = batches T [] 0 ls
    /\ Forall2 (fun p g => fs' !! p = Some (h ++ concat g)
                           /\ readlines (h ++ concat g) = h :: g)
               (batch_paths self table_name 1 (length gs)) gs.
Proof.
  intros Hv Hr Hne.
  destruct (header_terminated c h ls Hr Hne) as [Hh Hls].
  exists (batches T [] 0 ls),
         (write_groups self table_name h 1 (batches T [] 0 ls) [] fs).2.
  split; [|split; [reflexivity|]].
  - rewrite (split_opened_closed c T table_name fs Hv). cbv zeta.
    unfold data_lines. rewrite Hr.
    change (head (h :: ls)) with (Some h). change (tail (h :: ls)) with ls.
    by rewrite (header_text_terminated h Hh), write_groups_fst.
  - pose proof (write_groups_lookup self table_name h
                  (batches T [] 0 ls) 1 [] fs) as H.
    assert (Forall text_lines (batches T [] 0 ls)) as Hg.
    { apply text_lines_groups. by rewrite batches_concat. }
    eapply Forall2_impl; [apply (Forall2_and_Forall_r _ _ _ _ H Hg)|].
    intros p g [Hp Hg']. split; [done | by apply readlines_batch].
Qed.

(** The same, stated on the contents of the batch files. *)
Lemma split_opened_contents c T table_name fs h ls :
  valid_utf8 c = true -> readlines c = h :: ls -> ls <> [] ->
  exists gs fs',
    split_opened self c T table_name fs
    = Return (batch_paths self table_name 1 (length gs)) fs'
    /\ gs = batches T [] 0 ls
    /\ Forall2 (fun p content => fs' !! p = Some content)
               (batch_paths self table_name 1 (length gs))
               (map (fun g => h ++ concat g) gs)
    /\ map data_lines (map (fun g => h ++ concat g) gs) = gs.
Proof.
  intros Hv Hr Hne.
  destruct (split_opened_groups c T table_name fs h ls Hv Hr Hne)
    as (gs & fs' & Hrun & Hgs & HF).
  exists gs, fs'. split; [done|]. split; [done|].
  clear Hrun Hgs. induction HF as [|p g ps gs' [Hp Hg] _ [IH1 IH2]].
  - by split; [constructor|].
  - split; [by constructor|]. simpl. f_equal; [|done].
    unfold data_lines. by rewrite Hg.
Qed.

End ClosedForm.

(** Dismisses the case of a source that is not valid UTF-8 where the
    call is known to return. *)
Ltac decode_error Hv :=
  match goal with
  | |- context [split_opened ?self ?c ?T ?t ?fs] =>
    destruct (split_opened_raises self c T t fs Hv) as [? ->]
  end.

(** ** Properties of [split_file_by_lines] *)

Section Splitter.

Variable self : FileSplitter.

(** C1. For an existing source that is valid UTF-8 and has at least one
    data line, and a positive batch size, the call returns the paths of
    batches 1, 2, ... in that order; every path holds a file; and the
    data lines of these files (the lines after the first one, as the
    text stream yields them), taken in that order, are the data lines of
    the source in their order. The equality is one of lists of lines, so
    every line of a batch is a whole line of the source. *)
Theorem split_file_by_lines_roundtrip fs source_file batch_size_mb table_name c :
  fs !! source_file = Some c -> valid_utf8 c = true ->
  data_lines c <> [] -> 0 < batch_size_mb ->
  exists files fs' contents,
    split_file_by_lines self source_file batch_size_mb table_name fs
    = Return files fs'
    /\ files = batch_paths self table_name 1 (length files)
    /\ Forall2 (fun p content => fs' !! p = Some content) files contents
    /\ concat (map data_lines contents) = data_lines c.
Proof.
  intros Hc Hv Hd _. rewrite (split_file_by_lines_opened self _ _ _ _ c Hc).
  destruct (readlines c) as [|h ls] eqn:Hr; [by unfold data_lines in Hd; rewrite Hr in Hd|].
  assert (ls <> []) as Hne by (by unfold data_lines in Hd; rewrite Hr in Hd).
  destruct (split_opened_contents self c (batch_size_mb * 1024 * 1024)
              table_name fs h ls Hv Hr Hne) as (gs & fs' & Hrun & Hgs & HF & Hback).
  exists (batch_paths self table_name 1 (length gs)), fs',
         (map (fun g => h ++ concat g) gs).
  split; [done|]. split; [by rewrite length_batch_paths|]. split; [done|].
  rewrite Hback, Hgs, batches_concat. unfold data_lines. by rewrite Hr.
Qed.


(** C6. Every batch file a call with a positive batch size produces is
    at most [batch_size_bytes] plus the size of one line, its header
    line, unless it holds a single data line that alone is larger than
    [batch_size_bytes]. *)
Theorem batch_size_bound fs source_file batch_size_mb table_name c files fs' :
  fs !! source_file = Some c -> 0 < batch_size_mb ->
  split_file_by_lines self source_file batch_size_mb table_name fs
  = Return files fs' ->
  forall p, p ∈ files ->
    exists content h,
      fs' !! p = Some content
      /\ head (readlines content) = Some h
      /\ (Z.of_nat (length content)
          <= batch_size_mb * 1024 * 1024 + Z.of_nat (length h)
          \/ exists l, data_lines content = [l]
                       /\ batch_size_mb * 1024 * 1024 < Z.of_nat (length l)).
Proof.
  intros Hc _. rewrite (split_file_by_lines_opened self _ _ _ _ c Hc).
  set (T := batch_size_mb * 1024 * 1024).
  destruct (valid_utf8 c) eqn:Hv; [|by decode_error Hv].
  destruct (readlines c) as [|h ls] eqn:Hr.
  { rewrite split_opened_no_data; [|done|by unfold data_lines; rewrite Hr].
    intros [= <- <-] p Hp. by apply elem_of_nil in Hp. }
  destruct (decide (ls = [])) as [->|Hne].
  { rewrite split_opened_no_data; [|done|by unfold data_lines; rewrite Hr].
    intros [= <- <-] p Hp. by apply elem_of_nil in Hp. }
  destruct (split_opened_groups self c T table_name fs h ls Hv Hr Hne)
    as (gs & fs1 & Hrun & Hgs & HF).
  rewrite Hrun. intros [= <- <-] p Hp.
  apply list_elem_of_lookup in Hp as [i Hi].
  destruct (Forall2_lookup_l _ _ _ _ _ HF Hi) as (g & Hgi & Hg & Hback).
  exists (h ++ concat g), h. split; [done|]. split; [by rewrite Hback|].
  assert (Forall (fun g => group_size g <= T \/ exists l, g = [l]) gs) as Hb.
  { rewrite Hgs. apply batches_bound; [done | right; simpl; lia]. }
  rewrite Forall_forall in Hb.
  destruct (Hb g) as [Hle|[l ->]].
  { eapply list_elem_of_lookup_2, Hgi. }
  - left. rewrite length_app. unfold group_size in Hle. lia.
  - destruct (decide (T < Z.of_nat (length l))) as [Hbig|Hsmall].
    + right. exists l. split; [|done]. unfold data_lines. by rewrite Hback.
    + left. rewrite length_app. simpl. rewrite app_nil_r. lia.
Qed.

(** C7. A source with exactly one data line yields exactly one batch
    file, number 1, which holds the header followed by that line and
    reads back as these two lines; the call returns. This holds for every
    size of the line: a line larger than [batch_size_bytes] is not cut
    and not refused, and the batch is then larger than the target. *)
Theorem single_line_single_batch fs source_file batch_size_mb table_name c h l :
  fs !! source_file = Some c -> valid_utf8 c = true ->
  readlines c = [h; l] -> 0 < batch_size_mb ->
  split_file_by_lines self source_file batch_size_mb table_name fs
  = Return [batch_path self table_name 1]
           (<[batch_path self table_name 1 := h ++ l]> fs)
  /\ readlines (h ++ l) = [h; l]
  /\ (batch_size_mb * 1024 * 1024 < Z.of_nat (length l) ->
      batch_size_mb * 1024 * 1024 < Z.of_nat (length (h ++ l))).
Proof.
  intros Hc Hv Hr _. rewrite (split_file_by_lines_opened self _ _ _ _ c Hc).
  destruct (header_terminated c h [l] Hr) as [Hh Hl]; [done|].
  split; [|split].
  - rewrite split_opened_closed by done. unfold data_lines. rewrite Hr.
    change (head [h; l]) with (Some h). change (tail [h; l]) with [l].
    rewrite (header_text_terminated h Hh). simpl batches.
    rewrite andb_false_r. simpl. by rewrite app_nil_r.
  - pose proof (readlines_batch h [l] Hh Hl) as H. simpl in H.
    by rewrite app_nil_r in H.
  - rewrite length_app. lia.
Qed.

(** C8. A source without data lines, that is, a header alone, produces
    no batch file: the call returns the empty list and the disk is as it
    was. *)
Theorem header_only_no_batches fs source_file batch_size_mb table_name c :
  fs !! source_file = Some c -> valid_utf8 c = true ->
  data_lines c = [] -> 0 < batch_size_mb ->
  split_file_by_lines self source_file batch_size_mb table_name fs
  = Return [] fs.
Proof.
  intros Hc Hv Hd _. rewrite (split_file_by_lines_opened self _ _ _ _ c Hc).
  by apply split_opened_no_data.
Qed.


End Splitter.

(** ** The properties on the sample data *)

Lemma split_file_by_lines_roundtrip_witness :
  exists files fs' contents,
    split_file_by_lines Sample.splitter Sample.items_csv 1 "items" Sample.disk
    = Return files fs'
    /\ files = batch_paths Sample.splitter "items" 1 (length files)
    /\ Forall2 (fun p content => fs' !! p = Some content) files contents
    /\ concat (map data_lines contents) = data_lines Sample.items.
Proof.
  apply (split_file_by_lines_roundtrip Sample.splitter Sample.disk
           Sample.items_csv 1 "items" Sample.items).
  - reflexivity.
  - reflexivity.
  - vm_compute. discriminate.
  - lia.
Defined.



Lemma batch_size_bound_witness :
  exists content h,
    (<[Sample.batch_1 "orders" := Sample.orders]> Sample.disk)
      !! Sample.batch_1 "orders" = Some content
    /\ head (readlines content) = Some h
    /\ (Z.of_nat (length content) <= 1 * 1024 * 1024 + Z.of_nat (length h)
        \/ exists l, data_lines content = [l]
                     /\ 1 * 1024 * 1024 < Z.of_nat (length l)).
Proof.
  apply (batch_size_bound Sample.splitter Sample.disk Sample.orders_csv
           1 "orders" Sample.orders [Sample.batch_1 "orders"]
           (<[Sample.batch_1 "orders" := Sample.orders]> Sample.disk)).
  - reflexivity.
  - lia.
  - reflexivity.
  - apply list_elem_of_here.
Defined.

Lemma single_line_single_batch_witness :
  split_file_by_lines Sample.splitter Sample.one_row_csv 1 "one" Sample.disk
  = Return [batch_path Sample.splitter "one" 1]
           (<[batch_path Sample.splitter "one" 1
              := (Sample.bytes "a,b,c" ++ [LF]) ++ (Sample.bytes "1,2,3" ++ [LF])]>
              Sample.disk)
  /\ readlines ((Sample.bytes "a,b,c" ++ [LF]) ++ (Sample.bytes "1,2,3" ++ [LF]))
     = [Sample.bytes "a,b,c" ++ [LF]; Sample.bytes "1,2,3" ++ [LF]]
  /\ (1 * 1024 * 1024 < Z.of_nat (length (Sample.bytes "1,2,3" ++ [LF])) ->
      1 * 1024 * 1024
      < Z.of_nat (length ((Sample.bytes "a,b,c" ++ [LF])
                          ++ (Sample.bytes "1,2,3" ++ [LF])))).
Proof.
  apply (single_line_single_batch Sample.splitter Sample.disk
           Sample.one_row_csv 1 "one" Sample.one_row).
  - reflexivity.
  - reflexivity.
  - reflexivity.
  - lia.
Defined.

Lemma header_only_no_batches_witness :
  split_file_by_lines Sample.splitter Sample.header_only_csv 1 "empty"
                      Sample.disk
  = Return [] Sample.disk.
Proof.
  apply (header_only_no_batches Sample.splitter Sample.disk
           Sample.header_only_csv 1 "empty" Sample.header_only).
  - reflexivity.
  - reflexivity.
  - reflexivity.
  - lia.
Defined.


(** ** The rule of the specification and the loop of the code *)

Section RuleAndLoop.

Variable self : FileSplitter.
Variable table_name : string.

Lemma batch_paths_number_from gs : forall k,
  batch_paths self table_name k (length gs)
  = map (fun b : Z * list line => batch_path self table_name b.1)
        (number_from k gs).
Proof. induction gs as [|g gs IH]; intros k; simpl; [done | by rewrite IH]. Qed.

Lemma Forall2_number_from (P : Path -> list line -> Prop) gs : forall k,
  Forall2 P (batch_paths self table_name k (length gs)) gs ->
  Forall (fun b : Z * list line => P (batch_path self table_name b.1) b.2)
         (number_from k gs).
Proof.
  induction gs as [|g gs IH]; intros k; simpl; [constructor|].
  intros H. inversion H; subst. constructor; [done | by apply IH].
Qed.

(** On an opened source the code closes the batches the rule closes,
    under the same numbers, whatever the threshold. *)
Lemma split_opened_rule c T fs :
  valid_utf8 c = true ->
  exists fs',
    split_opened self c T table_name fs
    = Return (map (fun b : Z * list line => batch_path self table_name b.1)
                  (Rule.run T Rule.start (data_lines c))) fs'
    /\ Forall (fun b : Z * list line =>
                 fs' !! batch_path self table_name b.1
                 = Some (header_text (head (readlines c)) ++ concat b.2))
              (Rule.run T Rule.start (data_lines c)).
Proof.
  intros Hv.
  assert (Rule.run T Rule.start (data_lines c)
          = number_from 1 (batches T [] 0 (data_lines c))) as ->.
  { apply rule_run_batches; [constructor | | done].
    apply Forall_forall. intros l Hl.
    apply (text_line_nonempty (readlines c)); [apply readlines_text_lines|].
    unfold data_lines in Hl. destruct (readlines c); [done | by right]. }
  rewrite split_opened_closed by done. cbv zeta.
  eexists. split.
  - by rewrite write_groups_fst, batch_paths_number_from.
  - apply (Forall2_number_from
             (fun p g => _ !! p = Some (_ ++ concat g))).
    apply write_groups_lookup.
Qed.

End RuleAndLoop.

(** C3. The code follows the flush-before-append rule: for every source
    and batch size the batch files written are exactly the batches the
    rule of the specification closes (flush when the running count is not
    zero and [running + lineSize > targetBytesPerBatch], then append),
    under the same sequence numbers, each as the header followed by its
    lines. And on a source with a header and five data lines of 40 bytes
    each, run with [batch_size_bytes = 100], the method's body writes
    exactly three batch files, holding 2, 2 and 1 data lines. *)
Theorem flush_before_append (self : FileSplitter) (table_name : string) :
  (forall fs source_file batch_size_mb c,
     fs !! source_file = Some c -> valid_utf8 c = true ->
     exists fs',
       split_file_by_lines self source_file batch_size_mb table_name fs
       = Return (map (fun b : Z * list line => batch_path self table_name b.1)
                     (Rule.run (batch_size_mb * 1024 * 1024) Rule.start
                               (data_lines c))) fs'
       /\ Forall (fun b : Z * list line =>
                    fs' !! batch_path self table_name b.1
                    = Some (header_text (head (readlines c)) ++ concat b.2))
                 (Rule.run (batch_size_mb * 1024 * 1024) Rule.start
                           (data_lines c)))
  /\ (forall fs c h ls,
        valid_utf8 c = true -> readlines c = h :: ls ->
        length ls = 5%nat -> Forall (fun l => length l = 40%nat) ls ->
        exists fs' c1 c2 c3,
          split_opened self c 100 table_name fs
          = Return [batch_path self table_name 1;
                    batch_path self table_name 2;
                    batch_path self table_name 3] fs'
          /\ fs' !! batch_path self table_name 1 = Some c1
          /\ fs' !! batch_path self table_name 2 = Some c2
          /\ fs' !! batch_path self table_name 3 = Some c3
          /\ map (fun content => length (data_lines content)) [c1; c2; c3]
             = [2; 2; 1]%nat).
Proof.
  split.
  - intros fs source_file batch_size_mb c Hc Hv.
    rewrite (split_file_by_lines_opened self _ _ _ _ c Hc).
    by apply split_opened_rule.
  - intros fs c h ls Hv Hr Hlen Hall.
    destruct ls as [|l1 [|l2 [|l3 [|l4 [|l5 [|??]]]]]]; try discriminate.
    destruct (split_opened_contents self c 100 table_name fs h
                [l1; l2; l3; l4; l5] Hv Hr) as (gs & fs' & Hrun & Hgs & HF & Hback);
      [done|].
    assert (gs = [[l1; l2]; [l3; l4]; [l5]]) as ->.
    { rewrite Hgs.
      repeat match goal with
             | H : Forall _ (_ :: _) |- _ => inversion H; clear H; subst
             end.
      simpl batches.
      repeat match goal with H : length _ = 40%nat |- _ => rewrite H; clear H end.
      reflexivity. }
    simpl in HF, Hrun.
    inversion HF as [|???? H1 HF1]; subst.
    inversion HF1 as [|???? H2 HF2]; subst.
    inversion HF2 as [|???? H3 _]; subst.
    eexists fs', _, _, _. split; [exact Hrun|].
    split; [exact H1|]. split; [exact H2|]. split; [exact H3|].
    simpl map in Hback. injection Hback as E1 E2 E3.
    simpl map. by rewrite E1, E2, E3.
Qed.

Lemma flush_before_append_witness :
  (exists fs',
     split_file_by_lines Sample.splitter Sample.orders_csv 1 "forty" Sample.disk
     = Return (map (fun b : Z * list line => batch_path Sample.splitter "forty" b.1)
                   (Rule.run (1 * 1024 * 1024) Rule.start
                             (data_lines Sample.orders))) fs'
     /\ Forall (fun b : Z * list line =>
                  fs' !! batch_path Sample.splitter "forty" b.1
                  = Some (header_text (head (readlines Sample.orders))
                          ++ concat b.2))
               (Rule.run (1 * 1024 * 1024) Rule.start
                         (data_lines Sample.orders)))
  /\ exists fs' c1 c2 c3,
       split_opened Sample.splitter Sample.forty 100 "forty" Sample.disk
       = Return [batch_path Sample.splitter "forty" 1;
                 batch_path Sample.splitter "forty" 2;
                 batch_path Sample.splitter "forty" 3] fs'
       /\ fs' !! batch_path Sample.splitter "forty" 1 = Some c1
       /\ fs' !! batch_path Sample.splitter "forty" 2 = Some c2
       /\ fs' !! batch_path Sample.splitter "forty" 3 = Some c3
       /\ map (fun content => length (data_lines content)) [c1; c2; c3]
          = [2; 2; 1]%nat.
Proof.
  destruct (flush_before_append Sample.splitter "forty") as [Hrule Hscenario].
  split.
  - apply (Hrule Sample.disk Sample.orders_csv 1 Sample.orders); reflexivity.
  - apply (Hscenario Sample.disk Sample.forty
             (Sample.bytes "a,b,c" ++ [LF])
             [Sample.row40 "01"; Sample.row40 "02"; Sample.row40 "03";
              Sample.row40 "04"; Sample.row40 "05"]).
    + reflexivity.
    + reflexivity.
    + reflexivity.
    + repeat constructor.
Defined.

(** ** Arguments the specification wants refused *)

(** C4 as stated fails: a batch size of zero, a negative batch size and
    an empty table name are all accepted, and batch files are written. *)
Lemma bad_arguments_not_rejected :
  (exists fs',
     split_file_by_lines Sample.splitter Sample.orders_csv 0 "orders" Sample.disk
     = Return [Sample.batch_1 "orders"; Sample.batch_2 "orders";
               Sample.batch_3 "orders"] fs')
  /\ (exists fs',
        split_file_by_lines Sample.splitter Sample.orders_csv (-1) "orders"
                            Sample.disk
        = Return [Sample.batch_1 "orders"; Sample.batch_2 "orders";
                  Sample.batch_3 "orders"] fs')
  /\ (exists fs',
        split_file_by_lines Sample.splitter Sample.orders_csv 1 "" Sample.disk
        = Return [["batch_output"; "_batch_1.csv"]%string] fs').
Proof. repeat split; eexists; reflexivity. Qed.

Lemma batch_path_no_table self k :
  batch_path self "" k
  = target_directory self ++ ["_batch_" +:+ pretty k +:+ ".csv"]%string.
Proof.
  unfold batch_path, joinpath at 2. simpl. unfold joinpath.
  destruct (decide (batch_filename "" k = ""%string)) as [E|_]; [|done].
  by apply batch_filename_nonempty in E.
Qed.

(** C4, as amended. The method checks neither argument. For an existing
    source that is valid UTF-8 the call returns whatever the batch size
    and the table name are. With a batch size of zero or below every data
    line goes to a batch file of its own; with the empty table name the
    batch files are [_batch_n.csv], directly in the target directory. *)
Theorem no_argument_validation (self : FileSplitter) fs source_file
    batch_size_mb table_name c :
  fs !! source_file = Some c -> valid_utf8 c = true ->
  batch_size_mb <= 0 \/ table_name = ""%string ->
  exists files fs',
    split_file_by_lines self source_file batch_size_mb table_name fs
    = Return files fs'
    /\ (batch_size_mb <= 0 ->
        exists contents,
          Forall2 (fun p content => fs' !! p = Some content) files contents
          /\ map data_lines contents = map (fun l => [l]) (data_lines c))
    /\ (table_name = ""%string ->
        forall p, p ∈ files ->
          exists k : Z, p = target_directory self
                        ++ ["_batch_" +:+ pretty k +:+ ".csv"]%string).
Proof.
  intros Hc Hv _. rewrite (split_file_by_lines_opened self _ _ _ _ c Hc).
  set (T := batch_size_mb * 1024 * 1024).
  destruct (decide (data_lines c = [])) as [Hd|Hd].
  { exists [], fs. rewrite split_opened_no_data by done. split; [done|].
    split; [intros _; exists []; by rewrite Hd | by intros _ p ?%elem_of_nil]. }
  destruct (readlines c) as [|h ls] eqn:Hr; [by unfold data_lines in Hd; rewrite Hr in Hd|].
  assert (ls <> []) as Hne by (by unfold data_lines in Hd; rewrite Hr in Hd).
  destruct (split_opened_contents self c T table_name fs h ls Hv Hr Hne)
    as (gs & fs' & Hrun & Hgs & HF & Hback).
  eexists _, fs'. split; [exact Hrun|]. split.
  - intros Hmb. exists (map (fun g => h ++ concat g) gs). split; [done|].
    rewrite Hback, Hgs. unfold data_lines. rewrite Hr. simpl tail.
    rewrite batches_nonpositive; [done | unfold T; lia | done | simpl; lia |].
    apply Forall_forall. intros l Hl.
    apply (text_line_nonempty (readlines c)); [apply readlines_text_lines|].
    rewrite Hr. by right.
  - intros -> p Hp. apply elem_of_batch_paths in Hp as (k & _ & ->).
    exists k. apply batch_path_no_table.
Qed.

Lemma no_argument_validation_witness :
  exists files fs',
    split_file_by_lines Sample.splitter Sample.orders_csv 0 "" Sample.disk
    = Return files fs'
    /\ (0 <= 0 ->
        exists contents,
          Forall2 (fun p content => fs' !! p = Some content) files contents
          /\ map data_lines contents
             = map (fun l => [l]) (data_lines Sample.orders))
    /\ (""%string = ""%string ->
        forall p, p ∈ files ->
          exists k : Z, p = target_directory Sample.splitter
                        ++ ["_batch_" +:+ pretty k +:+ ".csv"]%string).
Proof.
  apply (no_argument_validation Sample.splitter Sample.disk Sample.orders_csv
           0 "" Sample.orders).
  - reflexivity.
  - reflexivity.
  - left. lia.
Defined.

(** ** [split_multiple_files] *)

Section Planner.

Variable splitter : FileSplitter.

(** The files a successful call returns are on disk. *)
Lemma split_file_by_lines_files_exist source_file batch_size_mb table_name
    fs files fs' :
  split_file_by_lines splitter source_file batch_size_mb table_name fs
  = Return files fs' ->
  Forall (fun p => is_Some (fs' !! p)) files.
Proof.
  unfold split_file_by_lines. destruct (fs !! source_file) as [c|]; [|done].
  set (T := batch_size_mb * 1024 * 1024).
  destruct (valid_utf8 c) eqn:Hv; [|by decode_error Hv].
  destruct (decide (data_lines c = [])) as [Hd|Hd].
  { rewrite split_opened_no_data by done. intros [= <- <-]. constructor. }
  destruct (readlines c) as [|h ls] eqn:Hr; [by unfold data_lines in Hd; rewrite Hr in Hd|].
  assert (ls <> []) as Hne by (by unfold data_lines in Hd; rewrite Hr in Hd).
  destruct (split_opened_groups splitter c T table_name fs h ls Hv Hr Hne)
    as (gs & fs1 & Hrun & _ & HF).
  rewrite Hrun. intros [= <- <-].
  apply Forall_forall. intros p Hp.
  apply list_elem_of_lookup in Hp as [i Hi].
  destruct (Forall2_lookup_l _ _ _ _ _ HF Hi) as (g & _ & Hg & _). by eexists.
Qed.

Lemma stat_all_exist files fs :
  Forall (fun p => is_Some (fs !! p)) files ->
  exists details, stat_all files fs = Return details fs.
Proof.
  induction 1 as [|p ps [content Hp] _ [details IH]]; simpl.
  - by eexists.
  - unfold mbind, M_bind, st_size. rewrite Hp, IH. by eexists.
Qed.

(** The summary of the files just written does not raise. *)
Lemma create_batch_summary_exist files fs :
  Forall (fun p => is_Some (fs !! p)) files ->
  exists s, create_batch_summary splitter files fs = Return s fs.
Proof.
  intros [details H]%stat_all_exist.
  unfold create_batch_summary, mbind, M_bind. rewrite H. by eexists.
Qed.

(** The loop over the configs never raises. *)
Lemma process_configs_foldl file_configs : forall s,
  process_configs splitter file_configs s
  = Return tt (foldl (after_config splitter) s file_configs).
Proof.
  induction file_configs as [|[[source_file batch_size_mb] table_name] rest IH];
    intros s; [done|].
  simpl. unfold mbind at 1, M_bind at 1.
  assert (try_except
            (batch_files ← on_disk (split_file_by_lines splitter source_file
                                       batch_size_mb table_name);
             _ ← set_result table_name batch_files;
             _ ← on_disk (create_batch_summary splitter batch_files);
             mret tt)
            (fun _ => set_result table_name []) s
          = Return tt (after_config splitter s
                         (source_file, batch_size_mb, table_name))) as ->.
  { unfold try_except, mbind, M_bind, on_disk, set_result, after_config.
    destruct (split_file_by_lines splitter source_file batch_size_mb
                                  table_name (disk s)) as [files fs'|e fs'] eqn:E;
      [|done].
    simpl.
    destruct (create_batch_summary_exist files fs') as [sm ->];
      [by eapply split_file_by_lines_files_exist|]. done. }
  apply IH.
Qed.

Lemma dict_get_set k v d : dict_get k (dict_set k v d) = Some v.
Proof.
  induction d as [|[k' v'] d IH]; simpl.
  - by rewrite decide_True.
  - destruct (decide (k = k')); simpl; [by rewrite decide_True|].
    by rewrite decide_False.
Qed.

Lemma dict_get_set_ne k k' v d :
  k <> k' -> dict_get k (dict_set k' v d) = dict_get k d.
Proof.
  intros Hne. induction d as [|[k'' v''] d IH]; simpl.
  - by rewrite decide_False.
  - destruct (decide (k' = k'')) as [->|]; simpl.
    + by rewrite !decide_False.
    + destruct (decide (k = k'')); [done | apply IH].
Qed.

Lemma keys_dict_set k v d : map fst (dict_set k v d) = add_key k (map fst d).
Proof.
  unfold add_key. induction d as [|[k' v'] d IH]; [done|].
  cbn [dict_set]. destruct (decide (k = k')) as [->|Hne]; cbn [map fst].
  - destruct (decide (k' ∈ k' :: map fst d)) as [_|H]; [done|].
    exfalso. apply H. by left.
  - rewrite IH.
    destruct (decide (k ∈ map fst d)) as [H|H],
             (decide (k ∈ k' :: map fst d)) as [H'|H']; try done.
    + exfalso. apply H'. by right.
    + exfalso. by apply elem_of_cons in H' as [?|?].
Qed.

Lemma results_after_config s source_file batch_size_mb table_name :
  results (after_config splitter s (source_file, batch_size_mb, table_name))
  = dict_set table_name
      (match split_file_by_lines splitter source_file batch_size_mb table_name
               (disk s) with
       | Return batch_files _ => batch_files
       | Raise _ _ => []
       end) (results s).
Proof. unfold after_config. by destruct (split_file_by_lines _ _ _ _ _). Qed.

Lemma keys_foldl file_configs : forall s,
  map fst (results (foldl (after_config splitter) s file_configs))
  = foldl (fun seen k => add_key k seen) (map fst (results s))
          (map label file_configs).
Proof.
  induction file_configs as [|[[source_file batch_size_mb] table_name] rest IH];
    intros s; [done|].
  cbn [foldl map]. by rewrite IH, results_after_config, keys_dict_set.
Qed.

(** Later configs with other table names leave an entry as it is. *)
Lemma dict_get_foldl table_name file_configs : forall s,
  table_name ∉ map label file_configs ->
  dict_get table_name (results (foldl (after_config splitter) s file_configs))
  = dict_get table_name (results s).
Proof.
  induction file_configs as [|[[source_file batch_size_mb] table_name'] rest IH];
    intros s Hnot; [done|].
  cbn [foldl]. rewrite IH.
  - rewrite results_after_config. apply dict_get_set_ne.
    intros ->. apply Hnot. by left.
  - intros Hin. apply Hnot. by right.
Qed.

Lemma first_occurrences_NoDup ks : forall seen,
  NoDup (seen ++ ks) -> foldl (fun seen k => add_key k seen) seen ks = seen ++ ks.
Proof.
  induction ks as [|k ks IH]; intros seen Hnd; simpl; [by rewrite app_nil_r|].
  unfold add_key at 2. rewrite decide_False.
  - rewrite IH; [by rewrite <- app_assoc | by rewrite <- app_assoc].
  - apply NoDup_app in Hnd as (_ & Hdis & _). intros Hin.
    apply (Hdis k Hin). by left.
Qed.

End Planner.

(** C5 as stated fails when a table name occurs twice: the first config
    names a missing source, so its splitter call raises, but the second
    config carries the same table name and replaces the empty list. *)
Lemma raised_label_not_empty :
  split_file_by_lines Sample.splitter Sample.missing_csv 1 "orders" Sample.disk
  = Raise FileNotFoundError Sample.disk
  /\ exists fs',
       split_multiple_files
         [(Sample.missing_csv, 1, "orders"%string);
          (Sample.orders_csv, 1, "orders"%string)]
         ["batch_output"%string] Sample.disk
       = Return [("orders"%string, [Sample.batch_1 "orders"])] fs'.
Proof. split; [reflexivity | eexists; reflexivity]. Qed.

(** C5, as amended. For every sequence of configs the call returns, it
    never raises. The keys of the mapping are the table names in the
    order of their first occurrence, which is the order of the configs
    when the names are distinct. Every config is processed, on the disk
    its predecessors left, and a table name maps to the outcome of the
    last config that carries it: the list its splitter call returned, or
    the empty list when that call raised. In particular, for three configs
    with distinct table names of which the second names a missing source,
    the first and third names map to their batch lists and the second to
    the empty list. *)
Theorem split_multiple_files_resilient
    (file_configs : list (Path * Z * string)) (target_directory : Path)
    (fs : filesystem) :
  exists results fs',
    split_multiple_files file_configs target_directory fs = Return results fs'
    /\ map fst results = first_occurrences (map label file_configs)
    /\ (NoDup (map label file_configs) ->
        map fst results = map label file_configs)
    /\ (forall pre source_file batch_size_mb table_name post,
          file_configs
          = pre ++ (source_file, batch_size_mb, table_name) :: post ->
          table_name ∉ map label post ->
          exists results_pre fs_pre,
            split_multiple_files pre target_directory fs
            = Return results_pre fs_pre
            /\ dict_get table_name results
               = Some (match split_file_by_lines
                               {| target_directory := target_directory |}
                               source_file batch_size_mb table_name fs_pre with
                       | Return batch_files _ => batch_files
                       | Raise _ _ => []
                       end))
    /\ (forall s1 m1 t1 s2 m2 t2 s3 m3 t3 b1 fs1 b3 fs3,
          file_configs = [(s1, m1, t1); (s2, m2, t2); (s3, m3, t3)] ->
          t1 <> t2 -> t1 <> t3 -> t2 <> t3 ->
          split_file_by_lines {| target_directory := target_directory |}
                              s1 m1 t1 fs = Return b1 fs1 ->
          fs1 !! s2 = None ->
          split_file_by_lines {| target_directory := target_directory |}
                              s3 m3 t3 fs1 = Return b3 fs3 ->
          results = [(t1, b1); (t2, []); (t3, b3)] /\ fs' = fs3).
Proof.
  set (sp := {| target_directory := target_directory |}).
  set (s0 := {| disk := fs; results := [] |}).
  exists (results (foldl (after_config sp) s0 file_configs)),
         (disk (foldl (after_config sp) s0 file_configs)).
  split; [|split; [|split; [|split]]].
  - unfold split_multiple_files. fold sp s0. by rewrite process_configs_foldl.
  - by rewrite keys_foldl.
  - intros Hnd. rewrite keys_foldl. by apply first_occurrences_NoDup.
  - intros pre source_file batch_size_mb table_name post -> Hnot.
    exists (results (foldl (after_config sp) s0 pre)),
           (disk (foldl (after_config sp) s0 pre)).
    split.
    + unfold split_multiple_files. fold sp s0. by rewrite process_configs_foldl.
    + rewrite foldl_app. cbn [foldl].
      rewrite dict_get_foldl by done.
      by rewrite results_after_config, dict_get_set.
  - intros s1 m1 t1 s2 m2 t2 s3 m3 t3 b1 fs1 b3 fs3 -> H12 H13 H23 H1 H2 H3.
    subst s0. cbn [foldl].
    assert (after_config sp {| disk := fs; results := [] |} (s1, m1, t1)
            = {| disk := fs1; results := [(t1, b1)] |}) as ->.
    { unfold after_config. cbn [disk results]. by rewrite H1. }
    assert (after_config sp {| disk := fs1; results := [(t1, b1)] |} (s2, m2, t2)
            = {| disk := fs1; results := [(t1, b1); (t2, [])] |}) as ->.
    { unfold after_config, split_file_by_lines. cbn [disk results].
      rewrite H2. cbn [dict_set]. by rewrite decide_False. }
    assert (after_config sp {| disk := fs1; results := [(t1, b1); (t2, [])] |}
                         (s3, m3, t3)
            = {| disk := fs3; results := [(t1, b1); (t2, []); (t3, b3)] |}) as ->.
    { unfold after_config. cbn [disk results]. rewrite H3. cbn [dict_set].
      rewrite decide_False by done. by rewrite decide_False. }
    done.
Qed.

Lemma split_multiple_files_resilient_witness :
  split_multiple_files
    [(Sample.orders_csv, 1, "orders"%string);
     (Sample.missing_csv, 1, "missing"%string);
     (Sample.items_csv, 1, "items"%string)]
    ["batch_output"%string] Sample.disk
  = Return [("orders"%string, [Sample.batch_1 "orders"]);
            ("missing"%string, []);
            ("items"%string, [Sample.batch_1 "items"])]
           (<[Sample.batch_1 "items" := Sample.items]>
              (<[Sample.batch_1 "orders" := Sample.orders]> Sample.disk))
  /\ exists results_pre fs_pre,
       split_multiple_files [(Sample.orders_csv, 1, "orders"%string)]
                            ["batch_output"%string] Sample.disk
       = Return results_pre fs_pre
       /\ dict_get "missing"
                   [("orders"%string, [Sample.batch_1 "orders"]);
                    ("missing"%string, []);
                    ("items"%string, [Sample.batch_1 "items"])]
          = Some (match split_file_by_lines
                          {| target_directory := ["batch_output"%string] |}
                          Sample.missing_csv 1 "missing" fs_pre with
                  | Return batch_files _ => batch_files
                  | Raise _ _ => []
                  end).
Proof.
  destruct (split_multiple_files_resilient
              [(Sample.orders_csv, 1, "orders"%string);
               (Sample.missing_csv, 1, "missing"%string);
               (Sample.items_csv, 1, "items"%string)]
              ["batch_output"%string] Sample.disk)
    as (results & fs' & Hrun & _ & _ & Hlast & Hthree).
  destruct (Hthree Sample.orders_csv 1 "orders"%string
                   Sample.missing_csv 1 "missing"%string
                   Sample.items_csv 1 "items"%string
                   [Sample.batch_1 "orders"]
                   (<[Sample.batch_1 "orders" := Sample.orders]> Sample.disk)
                   [Sample.batch_1 "items"]
                   (<[Sample.batch_1 "items" := Sample.items]>
                      (<[Sample.batch_1 "orders" := Sample.orders]> Sample.disk)))
    as [Hres Hfs];
    [reflexivity | discriminate | discriminate | discriminate
     | reflexivity | reflexivity | reflexivity |].
  split.
  - rewrite Hrun. by rewrite Hres, Hfs.
  - rewrite <- Hres.
    apply (Hlast [(Sample.orders_csv, 1, "orders"%string)]
                 Sample.missing_csv 1 "missing"%string
                 [(Sample.items_csv, 1, "items"%string)]).
    + reflexivity.
    + simpl. intros Hin.
      apply elem_of_cons in Hin as [Hin|Hin];
        [discriminate | by apply elem_of_nil in Hin].
Defined.

(** ** [split_file] *)

Section Chunks.

Variable self : FileSplitter.
Variable table_name : string.

Lemma ceiling_step len n :
  0 < n -> 1 <= len ->
  (Z.max (len - n) 0 + n - 1) / n + 1 = (len + n - 1) / n.
Proof.
  intros Hn Hlen.
  replace (len + n - 1) with (len - 1 + 1 * n) by lia.
  rewrite Z.div_add by lia. f_equal.
  destruct (Z.max_spec (len - n) 0) as [[? ->]|[? ->]].
  - rewrite !Z.div_small; lia.
  - f_equal. lia.
Qed.

Lemma read_positive n rest :
  0 < n -> n <= PY_SSIZE_T_MAX - PyBytesObject_SIZE ->
  read n rest = inr (take (Z.to_nat n) rest, drop (Z.to_nat n) rest).
Proof.
  intros Hn Hmax. unfold read, PY_SSIZE_T_MAX, PyBytesObject_SIZE in *.
  destruct (n <? - (2 ^ 63 - 1) - 1) eqn:E0; [lia|].
  destruct (2 ^ 63 - 1 <? n) eqn:E1; [lia|]. cbn [orb].
  destruct (n <? -1) eqn:E2; [lia|].
  destruct (n =? -1) eqn:E3; [lia|].
  destruct (n =? 0) eqn:E4; [lia|].
  by destruct (2 ^ 63 - 1 - 33 <? n) eqn:E5; [lia|].
Qed.

Lemma read_negative n rest :
  - PY_SSIZE_T_MAX - 1 <= n -> n < -1 -> read n rest = inl ValueError.
Proof.
  intros Hmin Hn. unfold read, PY_SSIZE_T_MAX in *.
  destruct (n <? - (2 ^ 63 - 1) - 1) eqn:E0; [lia|].
  destruct (2 ^ 63 - 1 <? n) eqn:E1; [lia|]. cbn [orb].
  by destruct (n <? -1) eqn:E2; [|lia].
Qed.

Lemma read_overflow n rest :
  n < - PY_SSIZE_T_MAX - 1 \/ PY_SSIZE_T_MAX - PyBytesObject_SIZE < n ->
  read n rest = inl OverflowError.
Proof.
  intros Hn. unfold read, PY_SSIZE_T_MAX, PyBytesObject_SIZE in *.
  destruct (n <? - (2 ^ 63 - 1) - 1) eqn:E0; [done|].
  destruct (2 ^ 63 - 1 <? n) eqn:E1; [done|]. cbn [orb].
  destruct (n <? -1) eqn:E2; [lia|].
  destruct (n =? -1) eqn:E3; [lia|].
  destruct (n =? 0) eqn:E4; [lia|].
  by destruct (2 ^ 63 - 1 - 33 <? n) eqn:E5; [|lia].
Qed.

Lemma read_refuses n rest :
  n < -1 \/ PY_SSIZE_T_MAX - PyBytesObject_SIZE < n ->
  exists e, read n rest = inl e.
Proof.
  intros Hn.
  destruct (Z_lt_ge_dec n (- PY_SSIZE_T_MAX - 1)) as [Hlow|Hlow].
  - exists OverflowError. apply read_overflow. by left.
  - destruct Hn as [Hn|Hn].
    + exists ValueError. apply read_negative; lia.
    + exists OverflowError. apply read_overflow. by right.
Qed.

(** An error of [read] leaves the loop with what was written so far. *)
Lemma chunk_loop_error n rest k acc fs e :
  read n rest = inl e ->
  chunk_loop self table_name n rest k acc fs = Raise e fs.
Proof.
  intros E. funelim (chunk_loop self table_name n rest k acc fs);
    match goal with
    | Hr : read ?n ?rest = _, E' : read ?n ?rest = inl _ |- _ =>
      let F := fresh in
      pose proof Hr as F; rewrite E' in F;
      first [discriminate F | by injection F as ->]
    end.
Qed.


(** With a positive chunk size the loop returns: it writes the chunks of
    the unread rest one after the other, each chunk but the last one of
    full size. *)
Lemma chunk_loop_chunks n rest k acc fs :
  0 < n -> n <= PY_SSIZE_T_MAX - PyBytesObject_SIZE ->
  exists chunks,
    chunk_loop self table_name n rest k acc fs
    = (let r := write_groups self table_name [] k
                  (map (fun chunk => [chunk]) chunks) acc fs in
       Return r.1 r.2)
    /\ concat chunks = rest
    /\ Z.of_nat (length chunks) = (Z.of_nat (length rest) + n - 1) / n.
Proof.
  intros Hn Hmax. funelim (chunk_loop self table_name n rest k acc fs).
  - match goal with Hr : read _ _ = inl _ |- _ => pose proof Hr as E end.
    by rewrite read_positive in E.
  - exists []. pose proof e as E. rewrite read_positive in E by done.
    injection E as Ht _.
    assert (rest = []) as ->.
    { destruct rest; [done|]. destruct (Z.to_nat n) eqn:E; [lia | done]. }
    split; [done|]. split; [done|]. simpl. by rewrite Z.div_small by lia.
  - destruct (H Hn Hmax) as (chunks & Hrun & Hcat & Hlen). clear H.
    exists ((b :: chunk) :: chunks).
    pose proof Hread as E. rewrite read_positive in E by done.
    injection E as Ht Hd.
    split; [|split].
    + cbv zeta in Hrun |- *. rewrite Hrun. simpl. by rewrite app_nil_r.
    + change (concat ((b :: chunk) :: chunks))
        with ((b :: chunk) ++ concat chunks).
      rewrite Hcat, <- Ht, <- Hd. apply take_drop.
    + simpl length. rewrite Nat2Z.inj_succ, Hlen, <- Hd, length_drop.
      assert (1 <= Z.of_nat (length rest))
        by (destruct rest; [by rewrite take_nil in Ht | simpl; lia]).
      rewrite <- (ceiling_step (Z.of_nat (length rest)) n) by lia.
      unfold Z.succ. f_equal. f_equal. lia.
Qed.

Lemma Forall2_map_r {A B C} (P : A -> C -> Prop) (f : B -> C) xs : forall ps,
  Forall2 P ps (map f xs) -> Forall2 (fun p x => P p (f x)) ps xs.
Proof.
  induction xs as [|x xs IH]; intros ps H; inversion H; subst; constructor; auto.
Qed.

End Chunks.




(** A chunk boundary may fall inside a line: with chunks of four bytes
    the first batch of [orders] ends in the middle of its header. *)
Example chunk_inside_line :
  match chunk_loop Sample.splitter "orders" 4 Sample.orders 1 [] Sample.disk with
  | Return files fs' => (files, fs' !! Sample.batch_1 "orders")
  | Raise _ _ => ([], None)
  end
  = (batch_paths Sample.splitter "orders" 1 5, Some (Sample.bytes "id,q")).
Proof. vm_compute. reflexivity. Qed.

(** ** Further properties of [split_file_by_lines] *)

Section MoreBatches.

Lemma batch_path_mem self table_name n : forall k i,
  k <= i < k + Z.of_nat n ->
  batch_path self table_name i ∈ batch_paths self table_name k n.
Proof.
  induction n as [|n IH]; intros k i Hi; simpl; [lia|].
  destruct (decide (i = k)) as [->|Hne]; [by left|].
  right. apply IH. lia.
Qed.

Lemma length_concat_nonempty {A} (gs : list (list A)) :
  Forall (fun g => g <> []) gs -> (length gs <= length (concat gs))%nat.
Proof.
  induction 1 as [|g gs Hg _ IH]; simpl; [done|].
  rewrite length_app. destruct g; [done|]. simpl. lia.
Qed.

(** The pending lines open the next batch that is closed. *)
Lemma batches_head T ls : forall pending size,
  pending <> [] ->
  exists more gs, batches T pending size ls = (pending ++ more) :: gs.
Proof.
  induction ls as [|l ls IH]; intros pending size Hne; simpl.
  - destruct pending; [done|]. exists [], []. by rewrite app_nil_r.
  - destruct ((size + Z.of_nat (length l) >? T) && nonempty pending).
    + exists [], (batches T [l] (0 + Z.of_nat (length l)) ls).
      by rewrite app_nil_r.
    + destruct (IH (pending ++ [l]) (size + Z.of_nat (length l)))
        as (more & gs & ->); [by destruct pending|].
      exists (l :: more), gs. by rewrite <- app_assoc.
Qed.

(** A batch is closed only when the line that follows does not fit. *)
Lemma batches_greedy T ls : forall pending size i g g' l,
  size = group_size pending ->
  batches T pending size ls !! i = Some g ->
  batches T pending size ls !! S i = Some g' ->
  head g' = Some l ->
  T < group_size g + Z.of_nat (length l).
Proof.
  induction ls as [|l0 ls IH]; intros pending size i g g' l Hsize; simpl.
  - destruct pending; simpl; [done|]. by destruct i.
  - destruct ((size + Z.of_nat (length l0) >? T) && nonempty pending) eqn:E.
    + destruct i as [|i]; simpl.
      * intros [= <-] Hg' Hl. apply andb_true_iff in E as [E _].
        apply Z.gtb_lt in E.
        destruct (batches_head T ls [l0] (0 + Z.of_nat (length l0)))
          as (more & gs & Hb); [done|].
        rewrite Hb in Hg'. simpl in Hg'. injection Hg' as <-.
        simpl in Hl. injection Hl as <-. lia.
      * apply IH. unfold group_size. simpl. rewrite app_nil_r. lia.
    + apply IH. by rewrite group_size_snoc, Hsize.
Qed.

(** Lines that fit together are never separated. *)
Lemma batches_fit T ls : forall pending size,
  0 <= size -> size + group_size ls <= T -> pending ++ ls <> [] ->
  batches T pending size ls = [pending ++ ls].
Proof.
  induction ls as [|l ls IH]; intros pending size H0 Hfit Hne; simpl.
  - rewrite app_nil_r in *. by destruct pending.
  - assert (group_size (l :: ls) = Z.of_nat (length l) + group_size ls) as Hcons.
    { unfold group_size. simpl. rewrite length_app. lia. }
    pose proof (Nat2Z.is_nonneg (length (concat ls))) as Hpos.
    fold (group_size ls) in Hpos.
    assert ((size + Z.of_nat (length l) >? T) = false) as ->.
    { rewrite Z.gtb_ltb. apply Z.ltb_ge. lia. }
    simpl. rewrite IH; [by rewrite <- app_assoc | lia | lia | by destruct pending].
Qed.

(** Without an oversized line every batch stays within the threshold. *)
Lemma batches_within T ls : forall pending size,
  size = group_size pending -> group_size pending <= T ->
  Forall (fun l => Z.of_nat (length l) <= T) ls ->
  Forall (fun g => group_size g <= T) (batches T pending size ls).
Proof.
  induction ls as [|l ls IH]; intros pending size Hsize Hp Hls; simpl.
  - destruct pending; by repeat constructor.
  - inversion Hls as [|?? Hl Hls']; subst.
    destruct ((group_size pending + Z.of_nat (length l) >? T)
              && nonempty pending) eqn:E.
    + constructor; [done|]. apply IH; [|by unfold group_size; simpl; rewrite app_nil_r|done].
      unfold group_size. simpl. rewrite app_nil_r. lia.
    + apply IH; [by rewrite group_size_snoc | | done].
      rewrite group_size_snoc. apply andb_false_iff in E as [E|E].
      * rewrite Z.gtb_ltb in E. apply Z.ltb_ge in E. lia.
      * destruct pending; [|done]. unfold group_size. simpl. lia.
Qed.

Lemma group_size_concat gs :
  group_size (concat gs) = foldr Z.add 0 (map group_size gs).
Proof.
  induction gs as [|g gs IH]; [done|]. simpl. rewrite <- IH.
  unfold group_size. rewrite concat_app, length_app. lia.
Qed.

Lemma sum_bounded T (xs : list Z) :
  Forall (fun x => x <= T) xs -> foldr Z.add 0 xs <= Z.of_nat (length xs) * T.
Proof.
  induction 1 as [|x xs Hx _ IH]; simpl length; [simpl; lia|].
  rewrite Nat2Z.inj_succ. simpl foldr. lia.
Qed.

Lemma readlines_nil s : readlines s = [] -> s = [].
Proof.
  destruct s as [|b r]; [done|]. simpl.
  destruct (Byte.eqb b LF); [done|]. destruct (Byte.eqb b CR); [done|].
  by destruct (readlines r).
Qed.

(** Without carriage returns the stream hands over every byte. *)
Lemma concat_readlines s : CR ∉ s -> concat (readlines s) = s.
Proof.
  induction s as [|b r IH]; intros Hcr; [done|].
  assert (CR ∉ r) as Hr by (intros ?; apply Hcr; by right).
  simpl. destruct (Byte.eqb b LF) eqn:ELF.
  { apply eqb_LF in ELF. subst. simpl. by rewrite IH. }
  destruct (Byte.eqb b CR) eqn:ECR.
  { apply eqb_CR in ECR. subst. exfalso. apply Hcr. by left. }
  destruct (readlines r) as [|l ls] eqn:E.
  - apply readlines_nil in E. by subst.
  - simpl. f_equal. by apply IH.
Qed.

End MoreBatches.

Section MoreSplitter.

Variable self : FileSplitter.

(** What a returning call did, on the groups of data lines. *)
Lemma split_file_by_lines_inv source_file batch_size_mb table_name fs files fs' :
  split_file_by_lines self source_file batch_size_mb table_name fs
  = Return files fs' ->
  exists c,
    fs !! source_file = Some c /\ valid_utf8 c = true
    /\ files = batch_paths self table_name 1
                 (length (batches (batch_size_mb * 1024 * 1024) [] 0
                                  (data_lines c)))
    /\ fs' = (write_groups self table_name (header_text (head (readlines c))) 1
                (batches (batch_size_mb * 1024 * 1024) [] 0 (data_lines c))
                [] fs).2.
Proof.
  unfold split_file_by_lines. destruct (fs !! source_file) as [c|]; [|done].
  destruct (valid_utf8 c) eqn:Hv; [|by decode_error Hv].
  rewrite split_opened_closed by done. cbv zeta. rewrite write_groups_fst.
  intros [= <- <-]. by exists c.
Qed.

Lemma split_file_by_lines_contents source_file batch_size_mb table_name fs c
    files fs' :
  fs !! source_file = Some c ->
  split_file_by_lines self source_file batch_size_mb table_name fs
  = Return files fs' ->
  exists h gs,
    gs = batches (batch_size_mb * 1024 * 1024) [] 0 (data_lines c)
    /\ files = batch_paths self table_name 1 (length gs)
    /\ Forall2 (fun p g => fs' !! p = Some (h ++ concat g)
                           /\ readlines (h ++ concat g) = h :: g) files gs.
Proof.
  intros Hc. rewrite (split_file_by_lines_opened self _ _ _ _ c Hc).
  destruct (valid_utf8 c) eqn:Hv; [|by decode_error Hv].
  destruct (decide (data_lines c = [])) as [Hd|Hd].
  { rewrite split_opened_no_data by done. intros [= <- <-].
    exists [], []. rewrite Hd. by repeat split. }
  destruct (readlines c) as [|h ls] eqn:Hr; [by unfold data_lines in Hd; rewrite Hr in Hd|].
  assert (ls <> []) as Hne by (by unfold data_lines in Hd; rewrite Hr in Hd).
  destruct (split_opened_groups self c (batch_size_mb * 1024 * 1024)
              table_name fs h ls Hv Hr Hne) as (gs & fs1 & Hrun & Hgs & HF).
  rewrite Hrun. intros [= <- <-]. exists h, gs.
  unfold data_lines. rewrite Hr. by repeat split.
Qed.

(** X1. No batch file is empty of data, so a call returns at most as many
    batch files as the source has data lines, and at least one when it
    has any. *)
Theorem batches_hold_data fs source_file batch_size_mb table_name c files fs' :
  fs !! source_file = Some c ->
  split_file_by_lines self source_file batch_size_mb table_name fs
  = Return files fs' ->
  (length files <= length (data_lines c))%nat
  /\ (data_lines c <> [] -> files <> [])
  /\ (forall p, p ∈ files ->
        exists content, fs' !! p = Some content /\ data_lines content <> []).
Proof.
  intros Hc Hrun.
  destruct (split_file_by_lines_contents _ _ _ _ _ _ _ Hc Hrun)
    as (h & gs & Hgs & Hfiles & HF).
  assert (Forall (fun g => g <> []) gs) as Hne by (rewrite Hgs; apply batches_nonempty).
  assert (concat gs = data_lines c) as Hcat by (by rewrite Hgs, batches_concat).
  split; [|split].
  - rewrite Hfiles, length_batch_paths, <- Hcat.
    by apply length_concat_nonempty.
  - intros Hd ->. symmetry in Hfiles. apply (f_equal length) in Hfiles.
    rewrite length_batch_paths in Hfiles. destruct gs; [|done].
    by rewrite <- Hcat in Hd.
  - intros p Hp. apply list_elem_of_lookup in Hp as [i Hi].
    destruct (Forall2_lookup_l _ _ _ _ _ HF Hi) as (g & Hgi & Hg & Hback).
    exists (h ++ concat g). split; [done|]. unfold data_lines. rewrite Hback.
    rewrite Forall_forall in Hne. apply Hne.
    eapply list_elem_of_lookup_2, Hgi.
Qed.

(** Paths outside the returned list keep their content. *)
Lemma split_file_by_lines_untouched fs source_file batch_size_mb table_name
    files fs' p :
  split_file_by_lines self source_file batch_size_mb table_name fs
  = Return files fs' ->
  p ∉ files -> fs' !! p = fs !! p.
Proof.
  intros (c & _ & _ & -> & ->)%split_file_by_lines_inv Hp.
  apply write_groups_frame. intros i Hi ->. apply Hp.
  by apply batch_path_mem.
Qed.

(** X2. A returning call touches no path but the batch files it returns:
    every other file, the source and the batch files of earlier runs
    with higher numbers among them, is as it was. *)
Theorem split_file_by_lines_frame fs source_file batch_size_mb table_name
    files fs' p :
  split_file_by_lines self source_file batch_size_mb table_name fs
  = Return files fs' ->
  p ∉ files -> fs' !! p = fs !! p.
Proof.
  intros (c & _ & _ & -> & ->)%split_file_by_lines_inv Hp.
  apply write_groups_frame. intros i Hi ->. apply Hp.
  by apply batch_path_mem.
Qed.

(** X3. Batches are filled greedily: when a batch file is followed by
    another one, its data lines together with the first data line of the
    next file would have passed [batch_size_bytes]. *)
Theorem batches_filled_greedily fs source_file batch_size_mb table_name c
    files fs' i p q cp cq l :
  fs !! source_file = Some c ->
  split_file_by_lines self source_file batch_size_mb table_name fs
  = Return files fs' ->
  files !! i = Some p -> files !! S i = Some q ->
  fs' !! p = Some cp -> fs' !! q = Some cq ->
  head (data_lines cq) = Some l ->
  batch_size_mb * 1024 * 1024
  < Z.of_nat (length (concat (data_lines cp))) + Z.of_nat (length l).
Proof.
  intros Hc Hrun Hp Hq Hcp Hcq Hl.
  destruct (split_file_by_lines_contents _ _ _ _ _ _ _ Hc Hrun)
    as (h & gs & Hgs & Hfiles & HF).
  destruct (Forall2_lookup_l _ _ _ _ _ HF Hp) as (g & Hgi & Hg & Hback).
  destruct (Forall2_lookup_l _ _ _ _ _ HF Hq) as (g' & Hgi' & Hg' & Hback').
  rewrite Hcp in Hg. injection Hg as ->.
  rewrite Hcq in Hg'. injection Hg' as ->.
  unfold data_lines in *. rewrite Hback. rewrite Hback' in Hl. simpl in *.
  rewrite Hgs in Hgi, Hgi'.
  by apply (batches_greedy _ _ _ _ _ _ _ _ eq_refl Hgi Hgi' Hl).
Qed.

(** X4. When the data lines together are no larger than
    [batch_size_bytes] there is a single batch file, and it holds the
    whole text of the source as the stream delivered it: a copy of the
    source, byte for byte, when the source holds no carriage return. *)
Theorem small_source_single_batch fs source_file batch_size_mb table_name c :
  fs !! source_file = Some c -> valid_utf8 c = true ->
  data_lines c <> [] ->
  Z.of_nat (length (concat (data_lines c))) <= batch_size_mb * 1024 * 1024 ->
  split_file_by_lines self source_file batch_size_mb table_name fs
  = Return [batch_path self table_name 1]
           (<[batch_path self table_name 1 := concat (readlines c)]> fs)
  /\ (CR ∉ c -> concat (readlines c) = c).
Proof.
  intros Hc Hv Hd Hfit. split; [|apply concat_readlines].
  rewrite (split_file_by_lines_opened self _ _ _ _ c Hc).
  rewrite split_opened_closed by done.
  destruct (readlines c) as [|h ls] eqn:Hr; [by unfold data_lines in Hd; rewrite Hr in Hd|].
  unfold data_lines in *. rewrite Hr in *. simpl tail in *.
  destruct (header_terminated c h ls Hr Hd) as [Hh _].
  change (head (h :: ls)) with (Some h).
  rewrite (header_text_terminated h Hh).
  rewrite batches_fit; [done | done | by unfold group_size; lia | done].
Qed.

(** X5. Splitting again is idempotent: when the source is not one of its
    own batch files, a second call with the same arguments returns the
    same list and leaves the disk as the first call left it. *)
Theorem split_file_by_lines_idempotent fs source_file batch_size_mb table_name
    files fs' :
  (forall k, source_file <> batch_path self table_name k) ->
  split_file_by_lines self source_file batch_size_mb table_name fs
  = Return files fs' ->
  split_file_by_lines self source_file batch_size_mb table_name fs'
  = Return files fs'.
Proof.
  intros Hsrc Hrun.
  assert (fs' !! source_file = fs !! source_file) as Hsame.
  { apply (split_file_by_lines_untouched _ _ _ _ _ _ _ Hrun).
    intros Hin. destruct (split_file_by_lines_inv _ _ _ _ _ _ Hrun)
      as (c & _ & _ & Hfiles & _).
    rewrite Hfiles in Hin. apply elem_of_batch_paths in Hin as (k & _ & E).
    by apply Hsrc in E. }
  destruct (split_file_by_lines_inv _ _ _ _ _ _ Hrun)
    as (c & Hc & Hv & Hfiles & Hfs).
  rewrite <- Hsame in Hc.
  rewrite (split_file_by_lines_opened self _ _ _ _ c Hc).
  rewrite split_opened_closed by done. cbv zeta. rewrite write_groups_fst.
  rewrite <- Hfiles. f_equal. apply map_eq. intros p.
  set (gs := batches (batch_size_mb * 1024 * 1024) [] 0 (data_lines c)) in *.
  set (h := header_text (head (readlines c))) in *.
  destruct (decide (p ∈ files)) as [Hin|Hout].
  - rewrite Hfiles in Hin. apply list_elem_of_lookup in Hin as [i Hi].
    pose proof (write_groups_lookup self table_name h gs 1 [] fs') as H2.
    pose proof (write_groups_lookup self table_name h gs 1 [] fs) as H1.
    destruct (Forall2_lookup_l _ _ _ _ _ H2 Hi) as (g2 & Hg2 & ->).
    destruct (Forall2_lookup_l _ _ _ _ _ H1 Hi) as (g1 & Hg1 & E1).
    rewrite Hfs, E1. congruence.
  - apply write_groups_frame. intros i Hi ->. apply Hout.
    rewrite Hfiles. by apply batch_path_mem.
Qed.


(** X7. When no data line is larger than [batch_size_bytes], no batch
    holds more data than [batch_size_bytes], so the call returns at least
    the data size divided by [batch_size_bytes] batch files. *)
Theorem batch_count_lower_bound fs source_file batch_size_mb table_name c
    files fs' :
  fs !! source_file = Some c -> 0 < batch_size_mb ->
  Forall (fun l => Z.of_nat (length l) <= batch_size_mb * 1024 * 1024)
         (data_lines c) ->
  split_file_by_lines self source_file batch_size_mb table_name fs
  = Return files fs' ->
  Z.of_nat (length (concat (data_lines c)))
  <= Z.of_nat (length files) * (batch_size_mb * 1024 * 1024)
  /\ (forall p content, p ∈ files -> fs' !! p = Some content ->
        Z.of_nat (length (concat (data_lines content)))
        <= batch_size_mb * 1024 * 1024).
Proof.
  intros Hc Hmb Hall Hrun.
  destruct (split_file_by_lines_contents _ _ _ _ _ _ _ Hc Hrun)
    as (h & gs & Hgs & Hfiles & HF).
  set (T := batch_size_mb * 1024 * 1024) in *.
  assert (Forall (fun g => group_size g <= T) gs) as Hin.
  { rewrite Hgs. apply batches_within; [done | unfold group_size, T; simpl; lia | done]. }
  split.
  - change (group_size (data_lines c) <= Z.of_nat (length files) * T).
    replace (data_lines c) with (concat gs) by (by rewrite Hgs, batches_concat).
    rewrite group_size_concat, Hfiles, length_batch_paths.
    rewrite <- (length_map group_size gs). apply sum_bounded.
    clear -Hin. induction Hin; constructor; auto.
  - intros p content Hp Hcontent.
    apply list_elem_of_lookup in Hp as [i Hi].
    destruct (Forall2_lookup_l _ _ _ _ _ HF Hi) as (g & Hgi & Hg & Hback).
    rewrite Hcontent in Hg. injection Hg as ->.
    unfold data_lines. rewrite Hback. simpl.
    rewrite Forall_forall in Hin. apply Hin.
    eapply list_elem_of_lookup_2, Hgi.
Qed.

End MoreSplitter.

(** ** Further properties of [split_file] *)

Section MoreChunks.

Variable self : FileSplitter.
Variable table_name : string.

(** The sizes of the chunks: all of full size but the last, none empty. *)
Lemma chunk_loop_sizes n rest k acc fs :
  0 < n -> n <= PY_SSIZE_T_MAX - PyBytesObject_SIZE ->
  exists chunks,
    chunk_loop self table_name n rest k acc fs
    = (let r := write_groups self table_name [] k
                  (map (fun chunk => [chunk]) chunks) acc fs in
       Return r.1 r.2)
    /\ concat chunks = rest
    /\ forall i chunk, chunks !! i = Some chunk ->
         1 <= Z.of_nat (length chunk) <= n
         /\ ((S i < length chunks)%nat -> Z.of_nat (length chunk) = n).
Proof.
  intros Hn Hmax. funelim (chunk_loop self table_name n rest k acc fs).
  - match goal with Hr : read _ _ = inl _ |- _ => pose proof Hr as E end.
    by rewrite read_positive in E.
  - exists []. pose proof e as E. rewrite read_positive in E by done.
    injection E as Ht _.
    assert (rest = []) as ->.
    { destruct rest; [done|]. destruct (Z.to_nat n) eqn:E; [lia | done]. }
    split; [done|]. split; [done|]. by intros i chunk ?.
  - destruct (H Hn Hmax) as (chunks & Hrun & Hcat & Hsizes). clear H.
    exists ((b :: chunk) :: chunks).
    pose proof Hread as E. rewrite read_positive in E by done.
    injection E as Ht Hd.
    split; [|split].
    + cbv zeta in Hrun |- *. rewrite Hrun. simpl. by rewrite app_nil_r.
    + change (concat ((b :: chunk) :: chunks))
        with ((b :: chunk) ++ concat chunks).
      rewrite Hcat, <- Ht, <- Hd. apply take_drop.
    + intros [|i] chunk' Hi; simpl in Hi.
      * injection Hi as <-. rewrite <- Ht, length_take. split.
        -- apply (f_equal length) in Ht. rewrite length_take in Ht.
           simpl in Ht. lia.
        -- simpl length. intros Hmore.
           destruct chunks as [|c0 chunks]; [simpl in Hmore; lia|].
           destruct (Hsizes 0%nat c0 eq_refl) as [[Hc0 _] _].
           apply (f_equal length) in Hcat. simpl in Hcat.
           rewrite length_app, <- Hd, length_drop in Hcat. lia.
      * destruct (Hsizes i chunk' Hi) as [H1 H2]. split; [done|].
        simpl length. intros Hmore. apply H2. lia.
Qed.

(** [read(0)] returns no byte, and the loop ends at once. *)
Lemma chunk_loop_zero rest k acc fs :
  chunk_loop self table_name 0 rest k acc fs = Return acc fs.
Proof.
  funelim (chunk_loop self table_name 0 rest k acc fs).
  - match goal with Hr : read _ _ = inl _ |- _ => pose proof Hr as E' end.
    by unfold read in E'.
  - done.
  - pose proof Hread as E'. by unfold read in E'.
Qed.

End MoreChunks.


(** X9. With a positive batch size every batch file of [split_file] holds
    between one and [batch_size_bytes] bytes, and every one but the last
    holds exactly [batch_size_bytes]. *)
Theorem split_file_chunk_sizes (self : FileSplitter) fs source_file
    batch_size_mb table_name c files fs' i p content :
  fs !! source_file = Some c -> 0 < batch_size_mb ->
  split_file self source_file batch_size_mb table_name fs = Return files fs' ->
  files !! i = Some p -> fs' !! p = Some content ->
  1 <= Z.of_nat (length content) <= batch_size_mb * 1024 * 1024
  /\ ((S i < length files)%nat ->
      Z.of_nat (length content) = batch_size_mb * 1024 * 1024).
Proof.
  intros Hc Hmb. unfold split_file. rewrite Hc.
  destruct (Z_le_gt_dec (batch_size_mb * 1024 * 1024)
                        (PY_SSIZE_T_MAX - PyBytesObject_SIZE)) as [Hmax|Hmax].
  2: { destruct (read_refuses (batch_size_mb * 1024 * 1024) c) as [e He];
         [right; lia|].
       by rewrite (chunk_loop_error _ _ _ _ _ _ _ _ He). }
  destruct (chunk_loop_sizes self table_name (batch_size_mb * 1024 * 1024)
              c 1 [] fs) as (chunks & Hrun & _ & Hsizes); [lia | done |].
  rewrite Hrun. cbv zeta. rewrite write_groups_fst, length_map.
  intros [= <- <-] Hi Hcontent.
  pose proof (write_groups_lookup self table_name []
                (map (fun chunk => [chunk]) chunks) 1 [] fs) as HF.
  rewrite length_map in HF. apply Forall2_map_r in HF.
  destruct (Forall2_lookup_l _ _ _ _ _ HF Hi) as (chunk & Hchunk & E).
  simpl in E. rewrite app_nil_r, Hcontent in E. injection E as ->.
  rewrite length_batch_paths. by apply Hsizes.
Qed.

(** X10. A returning call of [split_file] touches no path but the batch
    files it returns. *)
Theorem split_file_frame (self : FileSplitter) fs source_file batch_size_mb
    table_name files fs' p :
  split_file self source_file batch_size_mb table_name fs = Return files fs' ->
  p ∉ files -> fs' !! p = fs !! p.
Proof.
  unfold split_file. destruct (fs !! source_file) as [c|]; [|done].
  destruct (Z.lt_trichotomy batch_size_mb 0) as [Hneg|[->|Hpos]].
  - destruct (read_refuses (batch_size_mb * 1024 * 1024) c) as [e He];
      [left; lia|].
    by rewrite (chunk_loop_error _ _ _ _ _ _ _ _ He).
  - change (0 * 1024 * 1024) with 0. rewrite chunk_loop_zero.
    by intros [= <- <-].
  - destruct (Z_le_gt_dec (batch_size_mb * 1024 * 1024)
                          (PY_SSIZE_T_MAX - PyBytesObject_SIZE)) as [Hmax|Hmax].
    2: { destruct (read_refuses (batch_size_mb * 1024 * 1024) c) as [e He];
           [right; lia|].
         by rewrite (chunk_loop_error _ _ _ _ _ _ _ _ He). }
    destruct (chunk_loop_chunks self table_name (batch_size_mb * 1024 * 1024)
                c 1 [] fs) as (chunks & Hrun & _); [lia | done |].
    rewrite Hrun. cbv zeta. rewrite write_groups_fst.
    intros [= <- <-] Hp. apply write_groups_frame. intros i Hi ->.
    apply Hp. by apply batch_path_mem.
Qed.

(** ** Further properties of [create_batch_summary] and
    [split_multiple_files] *)

Section MorePlanner.

Variable splitter : FileSplitter.

Lemma stat_all_missing files fs :
  Exists (fun p => fs !! p = None) files ->
  stat_all files fs = Raise FileNotFoundError fs.
Proof.
  induction files as [|p ps IH]; intros H; [by inversion H|].
  simpl. unfold mbind, M_bind, st_size.
  destruct (fs !! p) as [content|] eqn:Hp; [|done].
  rewrite IH; [done|]. inversion H; subst; [congruence | done].
Qed.

(** [round] takes the nearest hundredth, the even one at a tie. *)
Lemma round_half_even_nearest num den :
  0 < den ->
  2 * Z.abs (num - den * round_half_even num den) <= den
  /\ (2 * Z.abs (num - den * round_half_even num den) = den ->
      Z.even (round_half_even num den) = true).
Proof.
  intros Hden. unfold round_half_even. cbv zeta.
  pose proof (Z.div_mod num den) as Hdm.
  pose proof (Z.mod_pos_bound num den Hden) as Hr.
  set (q := num / den) in *. set (r := num mod den) in *.
  destruct (den <? 2 * r) eqn:Hgt; cbn [orb].
  - apply Z.ltb_lt in Hgt. split; [lia|]. intros Htie. lia.
  - apply Z.ltb_ge in Hgt.
    destruct (2 * r =? den) eqn:Heq; cbn [andb].
    + apply Z.eqb_eq in Heq. destruct (Z.odd q) eqn:Hodd.
      * split; [lia|]. intros _.
        rewrite Z.even_add, <- Z.negb_odd, Hodd. done.
      * split; [lia|]. intros _. by rewrite <- Z.negb_odd, Hodd.
    + apply Z.eqb_neq in Heq. split; [lia|]. intros Htie. lia.
Qed.

Lemma stat_all_details files fs :
  Forall (fun p => is_Some (fs !! p)) files ->
  exists details,
    stat_all files fs = Return details fs
    /\ Forall2 (fun p (d : Path * Z) =>
                  d.1 = p /\ exists content,
                    fs !! p = Some content
                    /\ d.2 = round_size_mb (Z.of_nat (length content)))
               files details.
Proof.
  induction 1 as [|p ps [content Hp] _ (details & IH & HF)]; simpl.
  - exists []. by split; [|constructor].
  - unfold mbind, M_bind, st_size. rewrite Hp, IH. eexists. split; [done|].
    constructor; [|done]. simpl. split; [done|]. by exists content.
Qed.

(** X11. [create_batch_summary] raises [FileNotFoundError] when one of the
    listed files does not exist; otherwise it returns a summary that
    counts the files and lists them in order, each with its size in
    megabytes rounded to two places: the number of hundredths is the
    integer nearest to a hundred times the size in bytes over
    [1024 * 1024], the even one when two are equally near, so that a
    file below 5243 bytes is listed with [0.0]. The disk is not
    changed. *)
Theorem create_batch_summary_outcome files fs :
  (Forall (fun p => is_Some (fs !! p)) files ->
   exists s,
     create_batch_summary splitter files fs = Return s fs
     /\ total_batches s = length files
     /\ Forall2 (fun p (d : Path * Z) =>
                   d.1 = p /\ exists content,
                     let size := Z.of_nat (length content) in
                     fs !! p = Some content
                     /\ 2 * Z.abs (100 * size - 1024 * 1024 * d.2)
                        <= 1024 * 1024
                     /\ (2 * Z.abs (100 * size - 1024 * 1024 * d.2)
                         = 1024 * 1024 -> Z.even d.2 = true)
                     /\ (size < 5243 -> d.2 = 0))
                files (batch_details s))
  /\ (Exists (fun p => fs !! p = None) files ->
      create_batch_summary splitter files fs = Raise FileNotFoundError fs).
Proof.
  unfold create_batch_summary, mbind, M_bind. split.
  - intros (details & -> & HF)%stat_all_details. eexists.
    split; [reflexivity|]. split; [done|]. cbn [batch_details].
    eapply Forall2_impl; [exact HF|].
    intros p0 d (Hd & content & Hc & Hsize). split; [done|].
    exists content. cbv zeta. split; [done|].
    rewrite Hsize. unfold round_size_mb.
    set (size := Z.of_nat (length content)).
    replace (100 * size) with (size * 100) by lia.
    destruct (round_half_even_nearest (size * 100) (1024 * 1024)) as [Hn He];
      [lia|].
    split; [done|]. split; [done|].
    intros Hsmall.
    assert (0 <= size) by (unfold size; lia).
    set (n := round_half_even (size * 100) (1024 * 1024)) in *. lia.
  - intros H. by rewrite stat_all_missing.
Qed.


(** A call of the splitter never removes a file. *)
Lemma split_file_by_lines_keeps source_file batch_size_mb table_name fs p :
  is_Some (fs !! p) ->
  match split_file_by_lines splitter source_file batch_size_mb table_name fs with
  | Return _ fs' | Raise _ fs' => is_Some (fs' !! p)
  end.
Proof.
  intros Hp.
  destruct (split_file_by_lines splitter source_file batch_size_mb table_name fs)
    as [files fs'|e fs'] eqn:Hrun.
  - destruct (decide (p ∈ files)) as [Hin|Hout].
    + pose proof (split_file_by_lines_files_exist _ _ _ _ _ _ _ Hrun) as H.
      rewrite Forall_forall in H. by apply H.
    + by rewrite (split_file_by_lines_untouched _ _ _ _ _ _ _ _ Hrun Hout).
  - revert Hrun. unfold split_file_by_lines.
    destruct (fs !! source_file) as [c|]; [|by intros [= _ <-]].
    intros Hrun. by apply (split_opened_raise_keeps _ _ _ _ _ _ _ _ Hrun).
Qed.

Lemma dict_get_set_cases k k' v d :
  dict_get k (dict_set k' v d)
  = if decide (k = k') then Some v else dict_get k d.
Proof.
  destruct (decide (k = k')) as [->|Hne];
    [apply dict_get_set | by apply dict_get_set_ne].
Qed.

(** The batch files recorded so far are on disk. *)
Lemma after_config_recorded s cfg :
  (forall t files, dict_get t (results s) = Some files ->
                   Forall (fun p => is_Some (disk s !! p)) files) ->
  forall t files,
    dict_get t (results (after_config splitter s cfg)) = Some files ->
    Forall (fun p => is_Some (disk (after_config splitter s cfg) !! p)) files.
Proof.
  destruct cfg as [[source_file batch_size_mb] table_name].
  intros Hinv t files. unfold after_config.
  destruct (split_file_by_lines splitter source_file batch_size_mb table_name
                                (disk s)) as [bf fs'|e fs'] eqn:Hrun;
    cbn [disk results]; rewrite dict_get_set_cases;
    destruct (decide (t = table_name)) as [->|Hne].
  - intros [= <-]. by eapply split_file_by_lines_files_exist.
  - intros Hget. apply Forall_forall. intros p Hp.
    pose proof (Hinv t files Hget) as H. rewrite Forall_forall in H.
    pose proof (split_file_by_lines_keeps source_file batch_size_mb table_name
                  (disk s) p (H p Hp)) as Hk.
    by rewrite Hrun in Hk.
  - intros [= <-]. constructor.
  - intros Hget. apply Forall_forall. intros p Hp.
    pose proof (Hinv t files Hget) as H. rewrite Forall_forall in H.
    pose proof (split_file_by_lines_keeps source_file batch_size_mb table_name
                  (disk s) p (H p Hp)) as Hk.
    by rewrite Hrun in Hk.
Qed.

Lemma foldl_after_config_recorded file_configs : forall s,
  (forall t files, dict_get t (results s) = Some files ->
                   Forall (fun p => is_Some (disk s !! p)) files) ->
  forall t files,
    dict_get t (results (foldl (after_config splitter) s file_configs))
    = Some files ->
    Forall (fun p => is_Some (disk (foldl (after_config splitter) s file_configs)
                              !! p)) files.
Proof.
  induction file_configs as [|cfg rest IH]; intros s Hinv; [done|].
  cbn [foldl]. apply IH. by apply after_config_recorded.
Qed.

End MorePlanner.

(** X12. Every path in the mapping [split_multiple_files] returns is a
    file on the disk it leaves: batch files recorded for a table are
    never removed by the configs processed after it. *)
Theorem split_multiple_files_recorded_exist
    (file_configs : list (Path * Z * string)) (target_directory : Path)
    (fs : filesystem) results fs' table_name files p :
  split_multiple_files file_configs target_directory fs = Return results fs' ->
  dict_get table_name results = Some files -> p ∈ files ->
  is_Some (fs' !! p).
Proof.
  unfold split_multiple_files. rewrite process_configs_foldl.
  intros [= <- <-] Hget Hp.
  assert (forall t files, dict_get t [] = Some files ->
            Forall (fun p => is_Some (fs !! p)) files) as Hnil by done.
  pose proof (foldl_after_config_recorded
                {| target_directory := target_directory |} file_configs
                {| disk := fs; results := [] |} Hnil table_name files Hget) as HF.
  rewrite Forall_forall in HF. by apply HF.
Qed.

Section DistinctTables.

Variable splitter : FileSplitter.




End DistinctTables.


(** ** The further properties on the sample data *)

Lemma length_batch_path self table_name k :
  length (batch_path self table_name k)
  = (length (target_directory self)
     + if decide (table_name = ""%string) then 1 else 2)%nat.
Proof.
  unfold batch_path, joinpath at 1.
  destruct (decide (batch_filename table_name k = ""%string)) as [E|_];
    [by apply batch_filename_nonempty in E|].
  unfold joinpath. rewrite length_app.
  destruct (decide (table_name = ""%string)); [simpl; lia|].
  rewrite length_app. simpl. lia.
Qed.

Lemma batches_hold_data_witness :
  (length Fixture.orders_batches <= length (data_lines Sample.orders))%nat
  /\ (data_lines Sample.orders <> [] -> Fixture.orders_batches <> [])
  /\ (forall p, p ∈ Fixture.orders_batches ->
        exists content,
          Fixture.orders_by_line !! p = Some content
          /\ data_lines content <> []).
Proof.
  apply (batches_hold_data Sample.splitter Sample.disk Sample.orders_csv 0
           "orders" Sample.orders Fixture.orders_batches Fixture.orders_by_line).
  - reflexivity.
  - reflexivity.
Defined.

Lemma split_file_by_lines_frame_witness :
  Fixture.orders_by_line !! Sample.items_csv = Sample.disk !! Sample.items_csv.
Proof.
  apply (split_file_by_lines_frame Sample.splitter Sample.disk Sample.orders_csv
           0 "orders" Fixture.orders_batches Fixture.orders_by_line).
  - reflexivity.
  - intros Hin. repeat (apply elem_of_cons in Hin as [Hin|Hin]; [discriminate|]).
    by apply elem_of_nil in Hin.
Defined.

Lemma batches_filled_greedily_witness :
  0 * 1024 * 1024
  < Z.of_nat (length (concat (data_lines (Fixture.header ++ Fixture.row1))))
    + Z.of_nat (length Fixture.row2).
Proof.
  apply (batches_filled_greedily Sample.splitter Sample.disk Sample.orders_csv
           0 "orders" Sample.orders Fixture.orders_batches
           Fixture.orders_by_line 0%nat
           (Sample.batch_1 "orders") (Sample.batch_2 "orders")
           (Fixture.header ++ Fixture.row1) (Fixture.header ++ Fixture.row2)
           Fixture.row2); reflexivity.
Defined.

Lemma small_source_single_batch_witness :
  split_file_by_lines Sample.splitter Sample.orders_csv 1 "orders" Sample.disk
  = Return [batch_path Sample.splitter "orders" 1]
           (<[batch_path Sample.splitter "orders" 1
              := concat (readlines Sample.orders)]> Sample.disk)
  /\ (CR ∉ Sample.orders -> concat (readlines Sample.orders) = Sample.orders).
Proof.
  apply (small_source_single_batch Sample.splitter Sample.disk
           Sample.orders_csv 1 "orders" Sample.orders).
  - reflexivity.
  - reflexivity.
  - discriminate.
  - by vm_compute.
Defined.

Lemma split_file_by_lines_idempotent_witness :
  split_file_by_lines Sample.splitter Sample.orders_csv 0 "orders"
                      Fixture.orders_by_line
  = Return Fixture.orders_batches Fixture.orders_by_line.
Proof.
  apply (split_file_by_lines_idempotent Sample.splitter Sample.disk
           Sample.orders_csv 0 "orders").
  - intros k H. apply (f_equal length) in H. rewrite length_batch_path in H.
    simpl in H. lia.
  - reflexivity.
Defined.


(** What the loop sees of [Fixture.late_error]: the three lines of the
    first chunk that are complete, then the error. *)
Lemma iterate_late_error :
  iterate Fixture.late_error
  = ([Sample.bytes "h" ++ [LF]; Sample.bytes "1" ++ [LF];
      Sample.bytes "2" ++ [LF]], true).
Proof. vm_compute. reflexivity. Qed.

(** A [UnicodeDecodeError] can come after batches were written: with a
    batch size of zero the first row of [Fixture.late_error] is on disk
    as batch 1 when the error is raised, and the second row, which was
    pending, is not written. Through [split_multiple_files] the table
    then maps to the empty list although a batch file of it exists. *)
Example decode_error_after_flush :
  (exists fs',
     split_file_by_lines Sample.splitter Fixture.late_error_csv 0 "late"
                         Fixture.late_error_disk
     = Raise UnicodeDecodeError fs'
     /\ fs' !! Sample.batch_1 "late"
        = Some (Sample.bytes "h" ++ [LF] ++ Sample.bytes "1" ++ [LF])
     /\ fs' !! Sample.batch_2 "late" = None)
  /\ (exists fs',
        split_multiple_files [(Fixture.late_error_csv, 0, "late"%string)]
                             ["batch_output"%string] Fixture.late_error_disk
        = Return [("late"%string, [])] fs'
        /\ is_Some (fs' !! Sample.batch_1 "late")).
Proof.
  assert (split_file_by_lines Sample.splitter Fixture.late_error_csv 0 "late"
                              Fixture.late_error_disk
          = Raise UnicodeDecodeError
              (<[Sample.batch_1 "late"
                 := Sample.bytes "h" ++ [LF] ++ Sample.bytes "1" ++ [LF]]>
                 Fixture.late_error_disk)) as Hrun.
  { unfold split_file_by_lines.
    assert (Fixture.late_error_disk !! Fixture.late_error_csv
            = Some Fixture.late_error) as -> by apply lookup_insert_eq.
    cbv zeta. unfold split_opened. rewrite iterate_late_error.
    reflexivity. }
  split.
  - eexists. split; [exact Hrun|]. split.
    + apply lookup_insert_eq.
    + rewrite lookup_insert_ne by discriminate.
      unfold Fixture.late_error_disk.
      rewrite lookup_insert_ne by discriminate. apply lookup_empty.
  - eexists. split.
    + unfold split_multiple_files. rewrite process_configs_foldl.
      cbn [foldl]. unfold after_config. cbn [disk results].
      change {| target_directory := ["batch_output"%string] |}
        with Sample.splitter.
      rewrite Hrun. reflexivity.
    + cbn [disk]. rewrite lookup_insert_eq. by eexists.
Qed.

Lemma batch_count_lower_bound_witness :
  Z.of_nat (length (concat (data_lines Sample.orders)))
  <= Z.of_nat (length [Sample.batch_1 "orders"]) * (1 * 1024 * 1024)
  /\ (forall p content,
        p ∈ [Sample.batch_1 "orders"] ->
        (<[Sample.batch_1 "orders" := Sample.orders]> Sample.disk) !! p
        = Some content ->
        Z.of_nat (length (concat (data_lines content))) <= 1 * 1024 * 1024).
Proof.
  apply (batch_count_lower_bound Sample.splitter Sample.disk Sample.orders_csv
           1 "orders" Sample.orders).
  - reflexivity.
  - lia.
  - assert (data_lines Sample.orders
            = [Fixture.row1; Fixture.row2; Fixture.row3]) as -> by reflexivity.
    repeat constructor; by vm_compute.
  - reflexivity.
Defined.


(** [legacy] is smaller than one chunk, so [split_file] copies it to a
    single batch. *)
Lemma legacy_split_file :
  split_file Sample.splitter Sample.legacy_csv 1 "legacy" Sample.disk
  = Return [Sample.batch_1 "legacy"]
           (<[Sample.batch_1 "legacy" := Sample.legacy]> Sample.disk).
Proof.
  unfold split_file.
  assert (Sample.disk !! Sample.legacy_csv = Some Sample.legacy) as ->
    by reflexivity.
  destruct (chunk_loop_chunks Sample.splitter "legacy" (1 * 1024 * 1024)
              Sample.legacy 1 [] Sample.disk) as (chunks & Hrun & Hcat & Hlen);
    [lia | unfold PY_SSIZE_T_MAX, PyBytesObject_SIZE; lia |].
  rewrite Hrun.
  assert (chunks = [Sample.legacy]) as ->.
  { assert (length chunks = 1%nat) as Hone.
    { apply Nat2Z.inj. rewrite Hlen. by vm_compute. }
    destruct chunks as [|chunk [|? ?]];
      [discriminate Hone | | discriminate Hone].
    simpl in Hcat. rewrite app_nil_r in Hcat. by subst chunk. }
  reflexivity.
Qed.

Lemma split_file_chunk_sizes_witness :
  1 <= Z.of_nat (length Sample.legacy) <= 1 * 1024 * 1024
  /\ ((1 < length [Sample.batch_1 "legacy"])%nat ->
      Z.of_nat (length Sample.legacy) = 1 * 1024 * 1024).
Proof.
  apply (split_file_chunk_sizes Sample.splitter Sample.disk Sample.legacy_csv 1
           "legacy" Sample.legacy [Sample.batch_1 "legacy"]
           (<[Sample.batch_1 "legacy" := Sample.legacy]> Sample.disk) 0%nat
           (Sample.batch_1 "legacy") Sample.legacy).
  - reflexivity.
  - lia.
  - exact legacy_split_file.
  - reflexivity.
  - reflexivity.
Defined.

Lemma split_file_frame_witness :
  (<[Sample.batch_1 "legacy" := Sample.legacy]> Sample.disk) !! Sample.orders_csv
  = Sample.disk !! Sample.orders_csv.
Proof.
  apply (split_file_frame Sample.splitter Sample.disk Sample.legacy_csv 1
           "legacy" [Sample.batch_1 "legacy"]
           (<[Sample.batch_1 "legacy" := Sample.legacy]> Sample.disk)).
  - exact legacy_split_file.
  - intros Hin. apply list_elem_of_singleton in Hin. discriminate.
Defined.

Lemma create_batch_summary_outcome_witness :
  (exists s,
     create_batch_summary Sample.splitter [Sample.orders_csv] Sample.disk
     = Return s Sample.disk
     /\ total_batches s = 1%nat
     /\ batch_details s = [(Sample.orders_csv, 0)])
  /\ create_batch_summary Sample.splitter
       [Sample.orders_csv; Sample.missing_csv] Sample.disk
     = Raise FileNotFoundError Sample.disk.
Proof.
  destruct (create_batch_summary_outcome Sample.splitter [Sample.orders_csv]
              Sample.disk) as [Hreturns _].
  destruct (create_batch_summary_outcome Sample.splitter
              [Sample.orders_csv; Sample.missing_csv] Sample.disk)
    as [_ Hmissing].
  split.
  - destruct Hreturns as (s & Hrun & Hcount & HF);
      [repeat constructor; by eexists|].
    exists s. split; [exact Hrun|]. split; [exact Hcount|].
    inversion HF as [|p d ps ds (Hd & content & Hc & _ & _ & Hsmall) Hnil];
      subst.
    inversion Hnil; subst. destruct d as [d1 d2]. simpl in Hd, Hsmall.
    subst d1. f_equal. f_equal. apply Hsmall.
    assert (Some content = Some Sample.orders) as [= ->]
      by (rewrite <- Hc; reflexivity).
    by vm_compute.
  - apply Hmissing. right. by left.
Defined.

Lemma split_multiple_files_recorded_exist_witness :
  is_Some (Fixture.three_disk !! Sample.batch_1 "items").
Proof.
  apply (split_multiple_files_recorded_exist Fixture.three_configs
           ["batch_output"%string] Sample.disk
           [("orders"%string, [Sample.batch_1 "orders"]);
            ("items"%string, [Sample.batch_1 "items"]);
            ("missing"%string, [])]
           Fixture.three_disk "items" [Sample.batch_1 "items"]).
  - reflexivity.
  - reflexivity.
  - by left.
Defined.


(** ** [snowflake_loader.py]: loading the batches of a table *)

Section LoaderLemmas.

Context `{Py.Runtime}.
Variable self : Loader.SnowflakeBatchLoader.

Lemma load_batch_file_exists batch_file table_name i stage_name w content :
  Loader.files w !! batch_file = Some content ->
  Loader.load_batch_file self batch_file table_name i stage_name w
  = Return (Loader.LoadResult.mk _ table_name batch_file i
              (Py.clock (Loader.ticks w)) (Py.clock (S (Loader.ticks w)))
              (Py.total_seconds (Py.clock (Loader.ticks w))
                                (Py.clock (S (Loader.ticks w))))
              10000
              (Py.truediv (Py.of_int (Z.of_nat (length content)))
                          (Py.of_int (1024 * 1024)))
              true None)
           {| Loader.files := Loader.files w;
              Loader.ticks := S (S (Loader.ticks w)) |}.
Proof.
  intros Hc. unfold Loader.load_batch_file, Loader.put_file, Loader.now,
    Loader.on_files, try_except, mbind, M_bind, mret, M_ret, st_size.
  cbn [Loader.files Loader.ticks]. rewrite Hc.
  cbn [Loader.files Loader.ticks]. by rewrite Hc.
Qed.

Lemma load_batch_file_missing batch_file table_name i stage_name w :
  Loader.files w !! batch_file = None ->
  Loader.load_batch_file self batch_file table_name i stage_name w
  = Raise FileNotFoundError {| Loader.files := Loader.files w;
                               Loader.ticks := S (Loader.ticks w) |}.
Proof.
  intros Hc. unfold Loader.load_batch_file, Loader.now, Loader.on_files,
    mbind, M_bind, st_size.
  cbn [Loader.files Loader.ticks]. by rewrite Hc.
Qed.

Lemma load_each_exist table_name stage_name batch_files : forall i acc w,
  Forall (fun p => is_Some (Loader.files w !! p)) batch_files ->
  exists load_results,
    Loader.load_each self table_name stage_name i batch_files acc w
    = Return (acc ++ load_results)
             {| Loader.files := Loader.files w;
                Loader.ticks := (Loader.ticks w + 2 * length batch_files)%nat |}
    /\ Forall2 (fun p r => Loader.LoadResult.batch_file r = p
                           /\ Loader.LoadResult.table_name r = table_name
                           /\ Loader.LoadResult.success r = true
                           /\ Loader.LoadResult.error_message r = None
                           /\ Loader.LoadResult.rows_loaded r = 10000)
               batch_files load_results
    /\ map Loader.LoadResult.batch_number load_results
       = seqZ i (Z.of_nat (length batch_files)).
Proof.
  induction batch_files as [|p ps IH]; intros i acc w Hall.
  - exists []. simpl. rewrite app_nil_r, Nat.add_0_r.
    destruct w. split; [done|]. split; [constructor | done].
  - apply Forall_cons in Hall as [[content Hp] Hps].
    cbn [Loader.load_each]. unfold mbind at 1, M_bind at 1.
    rewrite (load_batch_file_exists _ _ _ _ _ _ Hp).
    match goal with |- context [acc ++ [?r]] => set (r0 := r) end.
    assert ((Loader.LoadResult.batch_file r0 = p
             /\ Loader.LoadResult.table_name r0 = table_name
             /\ Loader.LoadResult.success r0 = true
             /\ Loader.LoadResult.error_message r0 = None
             /\ Loader.LoadResult.rows_loaded r0 = 10000)
            /\ Loader.LoadResult.batch_number r0 = i) as [Hr0 Hi] by done.
    clearbody r0.
    destruct (IH (i + 1) (acc ++ [r0])
                {| Loader.files := Loader.files w;
                   Loader.ticks := S (S (Loader.ticks w)) |} Hps)
      as (rs & Hrun & HF & Hnum).
    rewrite Hrun. cbn [Loader.files Loader.ticks].
    exists (r0 :: rs). split; [|split].
    + rewrite <- app_assoc. simpl. do 2 f_equal. lia.
    + by constructor.
    + cbn [map]. rewrite Hnum, Hi.
      simpl length. rewrite Nat2Z.inj_succ, (seqZ_cons i) by lia.
      do 2 f_equal. lia.
Qed.

Lemma load_each_missing table_name stage_name batch_files : forall i acc w,
  Exists (fun p => Loader.files w !! p = None) batch_files ->
  exists w',
    Loader.load_each self table_name stage_name i batch_files acc w
    = Raise FileNotFoundError w'
    /\ Loader.files w' = Loader.files w.
Proof.
  induction batch_files as [|p ps IH]; intros i acc w Hex;
    [by inversion Hex|].
  cbn [Loader.load_each]. unfold mbind at 1, M_bind at 1.
  destruct (Loader.files w !! p) as [content|] eqn:Hp.
  - rewrite (load_batch_file_exists _ _ _ _ _ _ Hp).
    apply (IH _ _ {| Loader.files := Loader.files w;
                     Loader.ticks := S (S (Loader.ticks w)) |}).
    cbn [Loader.files]. inversion Hex; subst; [congruence | done].
  - rewrite (load_batch_file_missing _ _ _ _ _ Hp). by eexists.
Qed.

Lemma sum_rows_loaded (rs : list Loader.LoadResult.t) : forall n,
  Forall (fun r => Loader.LoadResult.rows_loaded r = 10000) rs ->
  foldl Z.add n (map Loader.LoadResult.rows_loaded rs)
  = n + 10000 * Z.of_nat (length rs).
Proof.
  induction rs as [|r rs IH]; intros n Hall; simpl; [lia|].
  apply Forall_cons in Hall as [Hr Hrs]. rewrite IH, Hr by done. lia.
Qed.

Lemma load_table_batches_returns table_name batch_files batch_size_mb w :
  Forall (fun p => is_Some (Loader.files w !! p)) batch_files ->
  exists s,
    Loader.load_table_batches self table_name batch_files batch_size_mb w
    = Return s {| Loader.files := Loader.files w;
                  Loader.ticks :=
                    (Loader.ticks w + 2 * length batch_files)%nat |}
    /\ Loader.TableLoadSummary.table_name s = table_name
    /\ Loader.TableLoadSummary.batch_size_mb s = batch_size_mb
    /\ Loader.TableLoadSummary.total_batches s = length batch_files
    /\ Loader.TableLoadSummary.total_rows_loaded s
       = 10000 * Z.of_nat (length batch_files)
    /\ map Loader.LoadResult.batch_file (Loader.TableLoadSummary.load_results s)
       = batch_files
    /\ map Loader.LoadResult.batch_number
           (Loader.TableLoadSummary.load_results s)
       = seqZ 1 (Z.of_nat (length batch_files))
    /\ Forall (fun r => Loader.LoadResult.success r = true)
              (Loader.TableLoadSummary.load_results s).
Proof.
  intros Hall. unfold Loader.load_table_batches. cbv zeta.
  unfold mbind, M_bind.
  destruct (load_each_exist table_name (table_name +:+ "_stage")
              batch_files 1 [] w Hall) as (rs & Hrun & HF & Hnum).
  rewrite Hrun. simpl app. eexists. split; [reflexivity|].
  cbn [Loader.TableLoadSummary.table_name
       Loader.TableLoadSummary.batch_size_mb
       Loader.TableLoadSummary.total_batches
       Loader.TableLoadSummary.total_rows_loaded
       Loader.TableLoadSummary.load_results].
  assert (length rs = length batch_files) as Hlen
    by (symmetry; eapply Forall2_length, HF).
  repeat split; try done.
  - rewrite sum_rows_loaded, Hlen; [lia|].
    clear -HF. induction HF; constructor; [tauto | done].
  - clear -HF. induction HF as [|p r ps rs Hr _ IH]; [done|].
    simpl. by rewrite IH, (proj1 Hr).
  - clear -HF. induction HF; constructor; [tauto | done].
Qed.

End LoaderLemmas.

(** X14. [load_batch_file] never returns a failed result. When the batch
    file exists it reads the clock twice and returns a successful result
    with 10000 rows, no error message and the table name, path and batch
    number it was given; when the file is missing, [FileNotFoundError]
    escapes, because the size is taken before the [try]. The files are
    not changed. *)
Theorem load_batch_file_outcome `{Py.Runtime}
    (self : Loader.SnowflakeBatchLoader) batch_file table_name i stage_name w :
  match Loader.load_batch_file self batch_file table_name i stage_name w with
  | Return r w' =>
    is_Some (Loader.files w !! batch_file)
    /\ Loader.LoadResult.success r = true
    /\ Loader.LoadResult.error_message r = None
    /\ Loader.LoadResult.rows_loaded r = 10000
    /\ Loader.LoadResult.table_name r = table_name
    /\ Loader.LoadResult.batch_file r = batch_file
    /\ Loader.LoadResult.batch_number r = i
    /\ Loader.LoadResult.start_time r = Py.clock (Loader.ticks w)
    /\ Loader.LoadResult.end_time r = Py.clock (S (Loader.ticks w))
    /\ Loader.files w' = Loader.files w
    /\ Loader.ticks w' = S (S (Loader.ticks w))
  | Raise e w' =>
    Loader.files w !! batch_file = None
    /\ e = FileNotFoundError
    /\ Loader.files w' = Loader.files w
  end.
Proof.
  destruct (Loader.files w !! batch_file) as [content|] eqn:Hp.
  - rewrite (load_batch_file_exists _ _ _ _ _ _ _ Hp). by repeat split.
  - by rewrite (load_batch_file_missing _ _ _ _ _ _ Hp).
Qed.

(** X15. [load_table_batches] returns exactly when every batch file
    exists. The summary then counts the files, holds one successful
    result per file in the order of the list, numbered from 1, and
    reports 10000 rows for each file; the clock has been read twice per
    file. When a file is missing, [FileNotFoundError] escapes and no
    summary is produced. The files are not changed. *)
Theorem load_table_batches_outcome `{Py.Runtime}
    (self : Loader.SnowflakeBatchLoader) table_name batch_files batch_size_mb w :
  (Forall (fun p => is_Some (Loader.files w !! p)) batch_files ->
   exists s,
     Loader.load_table_batches self table_name batch_files batch_size_mb w
     = Return s {| Loader.files := Loader.files w;
                   Loader.ticks :=
                     (Loader.ticks w + 2 * length batch_files)%nat |}
     /\ Loader.TableLoadSummary.table_name s = table_name
     /\ Loader.TableLoadSummary.batch_size_mb s = batch_size_mb
     /\ Loader.TableLoadSummary.total_batches s = length batch_files
     /\ Loader.TableLoadSummary.total_rows_loaded s
        = 10000 * Z.of_nat (length batch_files)
     /\ map Loader.LoadResult.batch_file (Loader.TableLoadSummary.load_results s)
        = batch_files
     /\ map Loader.LoadResult.batch_number
            (Loader.TableLoadSummary.load_results s)
        = seqZ 1 (Z.of_nat (length batch_files))
     /\ Forall (fun r => Loader.LoadResult.success r = true)
               (Loader.TableLoadSummary.load_results s))
  /\ (Exists (fun p => Loader.files w !! p = None) batch_files ->
      exists w',
        Loader.load_table_batches self table_name batch_files batch_size_mb w
        = Raise FileNotFoundError w'
        /\ Loader.files w' = Loader.files w).
Proof.
  split.
  - apply load_table_batches_returns.
  - intros Hex. unfold Loader.load_table_batches. cbv zeta.
    unfold mbind, M_bind.
    destruct (load_each_missing self table_name (table_name +:+ "_stage")
                batch_files 1 [] w Hex) as (w' & Hrun & Hfiles).
    rewrite Hrun. by eexists.
Qed.

(** ** [compare_loading_performance] *)

(** Membership in a list written with [++] and [::]. *)
Ltac list_member :=
  repeat (rewrite elem_of_app || rewrite elem_of_cons); auto 10.

Section Extremum.

Context {A : Type} (R : A -> A -> bool) (l : list A).

(** On the items of [l] the relation is transitive, and an item below
    another one is below a third item or the third is below the other. *)
Hypothesis R_trans : forall x y z, x ∈ l -> y ∈ l -> z ∈ l ->
  R x y = true -> R y z = true -> R x z = true.
Hypothesis R_cotrans : forall x y z, x ∈ l -> y ∈ l -> z ∈ l ->
  R x y = true -> R x z = true \/ R z y = true.

(** The loop of [min] and [max]: an item replaces the best one so far
    when it is strictly better. The result is the first item that no
    item is better than. *)
Lemma foldl_first_best rest : forall before best after,
  l = before ++ best :: after ++ rest ->
  Forall (fun x => R best x = true) before ->
  Forall (fun x => R x best = false) after ->
  exists before' best' after',
    l = before' ++ best' :: after'
    /\ foldl (fun best item => if R item best then item else best) best rest
       = best'
    /\ Forall (fun x => R best' x = true) before'
    /\ Forall (fun x => R x best' = false) after'.
Proof.
  induction rest as [|item rest IH]; intros before best after Hl Hb Ha.
  - exists before, best, after. by rewrite app_nil_r in Hl.
  - cbn [foldl]. destruct (R item best) eqn:Hitem.
    + apply (IH (before ++ best :: after) item []).
      * rewrite Hl. simpl. by rewrite <- app_assoc.
      * assert (item ∈ l) as Hil by (rewrite Hl; list_member).
        assert (best ∈ l) as Hbl by (rewrite Hl; list_member).
        apply Forall_app. split; [|constructor].
        -- rewrite Forall_forall in Hb |- *. intros x Hx.
           apply (R_trans item best x); auto.
           rewrite Hl. list_member.
        -- done.
        -- rewrite Forall_forall in Ha |- *. intros x Hx.
           destruct (R_cotrans item best x) as [H|H]; auto.
           ++ rewrite Hl. list_member.
           ++ rewrite (Ha x Hx) in H. discriminate.
      * constructor.
    + apply (IH before best (after ++ [item])).
      * by rewrite Hl, <- app_assoc.
      * done.
      * apply Forall_app. split; [done|]. by constructor.
Qed.

End Extremum.

(** X16. [fastest_table] is [None] exactly when there are no summaries.
    Otherwise it names the first summary of least total duration: every
    summary before it took strictly longer and no summary after it was
    strictly faster. The order on the durations that occur is taken to
    be transitive, with any third duration above the smaller or below
    the larger of two ordered ones. *)
Theorem fastest_table_first_minimal `{Py.Runtime}
    (summaries : list Loader.TableLoadSummary.t) :
  let key := Loader.TableLoadSummary.total_duration_seconds in
  (Loader.Comparison.fastest_table
     (Loader.compare_loading_performance summaries) = None
   <-> summaries = [])
  /\ ((forall x y z, x ∈ summaries -> y ∈ summaries -> z ∈ summaries ->
         Py.lt (key x) (key y) = true -> Py.lt (key y) (key z) = true ->
         Py.lt (key x) (key z) = true) ->
      (forall x y z, x ∈ summaries -> y ∈ summaries -> z ∈ summaries ->
         Py.lt (key x) (key y) = true ->
         Py.lt (key x) (key z) = true \/ Py.lt (key z) (key y) = true) ->
      summaries <> [] ->
      exists before s after,
        summaries = before ++ s :: after
        /\ Loader.Comparison.fastest_table
             (Loader.compare_loading_performance summaries)
           = Some (Loader.TableLoadSummary.table_name s)
        /\ Forall (fun x => Py.lt (key s) (key x) = true) before
        /\ Forall (fun x => Py.lt (key x) (key s) = false) after).
Proof.
  intros key. split.
  - by destruct summaries.
  - intros Htrans Hcot Hne. destruct summaries as [|first rest]; [done|].
    destruct (foldl_first_best (fun x y => Py.lt (key x) (key y))
                (first :: rest) Htrans Hcot rest [] first [])
      as (before & s & after & Hl & Hmin & Hb & Ha); [done | done | done|].
    exists before, s, after. split; [done|]. split; [|done].
    cbn. unfold Loader.min_key. fold key. by rewrite Hmin.
Qed.

(** X17. [highest_throughput] is [None] exactly when there are no
    summaries. Otherwise it names the first summary of greatest
    throughput: every summary before it had a strictly smaller
    throughput and no summary after it has a strictly greater one, under
    the same assumptions on the order of the throughputs that occur. *)
Theorem highest_throughput_first_maximal `{Py.Runtime}
    (summaries : list Loader.TableLoadSummary.t) :
  let key := Loader.TableLoadSummary.throughput_mb_per_second in
  (Loader.Comparison.highest_throughput
     (Loader.compare_loading_performance summaries) = None
   <-> summaries = [])
  /\ ((forall x y z, x ∈ summaries -> y ∈ summaries -> z ∈ summaries ->
         Py.lt (key x) (key y) = true -> Py.lt (key y) (key z) = true ->
         Py.lt (key x) (key z) = true) ->
      (forall x y z, x ∈ summaries -> y ∈ summaries -> z ∈ summaries ->
         Py.lt (key x) (key y) = true ->
         Py.lt (key x) (key z) = true \/ Py.lt (key z) (key y) = true) ->
      summaries <> [] ->
      exists before s after,
        summaries = before ++ s :: after
        /\ Loader.Comparison.highest_throughput
             (Loader.compare_loading_performance summaries)
           = Some (Loader.TableLoadSummary.table_name s)
        /\ Forall (fun x => Py.lt (key x) (key s) = true) before
        /\ Forall (fun x => Py.lt (key s) (key x) = false) after).
Proof.
  intros key. split.
  - by destruct summaries.
  - intros Htrans Hcot Hne. destruct summaries as [|first rest]; [done|].
    destruct (foldl_first_best (fun x y => Py.lt (key y) (key x))
                (first :: rest)) with (rest := rest) (before := @nil Loader.TableLoadSummary.t)
                (best := first) (after := @nil Loader.TableLoadSummary.t)
      as (before & s & after & Hl & Hmax & Hb & Ha).
    + intros x y z Hx Hy Hz Hxy Hyz. by apply (Htrans z y x).
    + intros x y z Hx Hy Hz Hxy.
      destruct (Hcot y x z) as [Hc|Hc]; auto.
    + done.
    + done.
    + done.
    + exists before, s, after. split; [done|]. split; [|done].
      cbn. unfold Loader.max_key. fold key. by rewrite Hmax.
Qed.

(** ** The order of paths and the batch files a load-only run finds *)

Section PathOrder.

Lemma ascii_compare_refl a : Ascii.compare a a = Eq.
Proof. apply N.compare_refl. Qed.

Lemma ascii_compare_lt_trans a b c :
  Ascii.compare a b = Lt -> Ascii.compare b c = Lt -> Ascii.compare a c = Lt.
Proof. unfold Ascii.compare. rewrite !N.compare_lt_iff. lia. Qed.

Lemma string_compare_refl s : String.compare s s = Eq.
Proof. induction s as [|a s IH]; simpl; [done|]. by rewrite ascii_compare_refl. Qed.

Lemma string_compare_lt_trans s1 : forall s2 s3,
  String.compare s1 s2 = Lt -> String.compare s2 s3 = Lt ->
  String.compare s1 s3 = Lt.
Proof.
  induction s1 as [|a s1 IH]; intros [|b s2] [|c s3]; simpl; try done.
  destruct (Ascii.compare a b) eqn:Hab; [|clear IH|done];
    (destruct (Ascii.compare b c) eqn:Hbc; [| |done]).
  - apply Ascii.compare_eq_iff in Hab, Hbc. subst.
    rewrite ascii_compare_refl. apply IH.
  - apply Ascii.compare_eq_iff in Hab. subst. by rewrite Hbc.
  - apply Ascii.compare_eq_iff in Hbc. subst. by rewrite Hab.
  - by rewrite (ascii_compare_lt_trans a b c).
Qed.


Lemma path_compare_refl p : Orchestrator.path_compare p p = Eq.
Proof. induction p as [|a p IH]; simpl; [done|]. by rewrite string_compare_refl. Qed.

Lemma path_compare_eq p : forall q,
  Orchestrator.path_compare p q = Eq -> p = q.
Proof.
  induction p as [|a p IH]; intros [|b q]; simpl; try done.
  destruct (String.compare a b) eqn:Hab; try done.
  apply String.compare_eq_iff in Hab. intros ?%IH. by subst.
Qed.

Lemma path_compare_antisym p : forall q,
  Orchestrator.path_compare p q = CompOpp (Orchestrator.path_compare q p).
Proof.
  induction p as [|a p IH]; intros [|b q]; simpl; try done.
  rewrite (String.compare_antisym b a).
  destruct (String.compare a b); simpl; [apply IH | done | done].
Qed.

Lemma path_compare_lt_trans p : forall q r,
  Orchestrator.path_compare p q = Lt -> Orchestrator.path_compare q r = Lt ->
  Orchestrator.path_compare p r = Lt.
Proof.
  induction p as [|a p IH]; intros [|b q] [|c r]; simpl; try done.
  destruct (String.compare a b) eqn:Hab; [|clear IH|done];
    (destruct (String.compare b c) eqn:Hbc; [| |done]).
  - apply String.compare_eq_iff in Hab, Hbc. subst.
    rewrite string_compare_refl. apply IH.
  - apply String.compare_eq_iff in Hab. subst. by rewrite Hbc.
  - apply String.compare_eq_iff in Hbc. subst. by rewrite Hab.
  - by rewrite (string_compare_lt_trans a b c).
Qed.


#[global] Instance path_le_total : Total Orchestrator.path_le.
Proof.
  intros p q. unfold Orchestrator.path_le.
  rewrite (path_compare_antisym q p).
  destruct (Orchestrator.path_compare p q); simpl; auto.
Qed.

#[global] Instance path_le_trans : Transitive Orchestrator.path_le.
Proof.
  intros p q r. unfold Orchestrator.path_le.
  destruct (Orchestrator.path_compare p q) eqn:Hpq; [| |done];
    (destruct (Orchestrator.path_compare q r) eqn:Hqr; [| |done]); intros _ _.
  - apply path_compare_eq in Hpq, Hqr. subst. by rewrite path_compare_refl.
  - apply path_compare_eq in Hpq. subst. by rewrite Hqr.
  - apply path_compare_eq in Hqr. subst. by rewrite Hpq.
  - by rewrite (path_compare_lt_trans p q r).
Qed.

#[global] Instance path_le_antisym : AntiSymm eq Orchestrator.path_le.
Proof.
  intros p q. unfold Orchestrator.path_le.
  rewrite (path_compare_antisym q p).
  destruct (Orchestrator.path_compare p q) eqn:Hpq; simpl; try done.
  intros _ _. by apply path_compare_eq.
Qed.


End PathOrder.

Section Glob.








Lemma elem_of_glob table_dir table_name fs p :
  p ∈ Orchestrator.glob table_dir table_name fs
  <-> is_Some (fs !! p) /\ Orchestrator.in_glob table_dir table_name p = true.
Proof.
  unfold Orchestrator.glob. rewrite list_elem_of_filter, list_elem_of_fmap.
  rewrite Is_true_true. split.
  - intros [Hm ([q c] & -> & Hin)]. apply elem_of_map_to_list in Hin.
    split; [by exists c | done].
  - intros [[c Hc] Hm]. split; [done|]. exists (p, c).
    split; [done | by apply elem_of_map_to_list].
Qed.





Lemma elem_of_existing_batch_files config table_name fs p :
  p ∈ Orchestrator.existing_batch_files config table_name fs
  <-> is_Some (fs !! p)
      /\ Orchestrator.in_glob
           (joinpath (Orchestrator.target_dir config) table_name) table_name p
         = true.
Proof.
  unfold Orchestrator.existing_batch_files, Orchestrator.sorted. cbv zeta.
  rewrite merge_sort_Permutation. apply elem_of_glob.
Qed.





End Glob.




(** ** [run_batch_loading_pipeline] *)

Section Pipeline.

Context `{Py.Runtime}.
Variable loader : Loader.SnowflakeBatchLoader.
Variable config : Orchestrator.Config.t.
Variable load_only : bool.

(** The files and the split results at the start of the load phase. *)
Variable fs : filesystem.
Variable split : dict.

Let batches := batch_list config load_only fs split.

Hypothesis batch_files_exist : forall table_name,
  Forall (fun p => is_Some (fs !! p)) (batches table_name).

Lemma load_tables_run file_configs : forall s,
  Loader.files (Orchestrator.world s) = fs ->
  Orchestrator.Results.split_results (Orchestrator.results s) = split ->
  exists summaries ticks',
    Orchestrator.load_tables loader config load_only file_configs s
    = Return tt
        {| Orchestrator.world :=
             {| Loader.files := fs; Loader.ticks := ticks' |};
           Orchestrator.results :=
             Orchestrator.Results.mk _
               (Orchestrator.Results.timestamp (Orchestrator.results s))
               (Orchestrator.Results.warehouse_size (Orchestrator.results s))
               split
               (Orchestrator.Results.load_summaries (Orchestrator.results s)
                ++ summaries)
               (Orchestrator.Results.comparison (Orchestrator.results s)) |}
    /\ Forall2 (loaded batches)
               (filter (fun cfg => batches cfg.2 <> []) file_configs)
               summaries.
Proof.
  induction file_configs as [|[[source_file batch_size_mb] table_name] rest IH];
    intros [[fs0 t0] [ts wh sp sums cmp]];
    cbn [Orchestrator.world Orchestrator.results Loader.files
         Orchestrator.Results.split_results Orchestrator.Results.timestamp
         Orchestrator.Results.warehouse_size
         Orchestrator.Results.load_summaries Orchestrator.Results.comparison
         Orchestrator.load_tables];
    intros -> ->.
  - exists [], t0. rewrite app_nil_r. by split; [|constructor].
  - unfold mbind at 1, M_bind at 1. unfold Orchestrator.batch_files_of.
    cbn [Orchestrator.world Orchestrator.results Loader.files
         Orchestrator.Results.split_results].
    change (if load_only
            then Orchestrator.existing_batch_files config table_name fs
            else default [] (dict_get table_name split))
      with (batches table_name).
    rewrite filter_cons. cbn [snd].
    destruct (decide (batches table_name <> [])) as [Hne|Heq].
    + destruct (batches table_name) as [|p ps] eqn:Hlist; [done|].
      unfold mbind at 1, M_bind at 1. unfold mbind at 1, M_bind at 1.
      unfold Orchestrator.on_world. cbn [Orchestrator.world Orchestrator.results].
      destruct (load_table_batches_returns loader table_name (p :: ps)
                  batch_size_mb {| Loader.files := fs; Loader.ticks := t0 |})
        as (sm & Hrun & Hname & Hsize & Hcount & Hrows & Hfiles & _).
      { cbn [Loader.files]. rewrite <- Hlist. apply batch_files_exist. }
      rewrite Hrun. unfold Orchestrator.append_summary. cbv zeta.
      cbn [Orchestrator.world Orchestrator.results Loader.files Loader.ticks
           Orchestrator.Results.timestamp Orchestrator.Results.warehouse_size
           Orchestrator.Results.split_results
           Orchestrator.Results.load_summaries
           Orchestrator.Results.comparison].
      edestruct IH as (summaries & ticks' & Hrest & HF);
        [| |rewrite Hrest]; [reflexivity | reflexivity |].
      cbn [Orchestrator.world Orchestrator.results Loader.files Loader.ticks
           Orchestrator.Results.timestamp Orchestrator.Results.warehouse_size
           Orchestrator.Results.split_results
           Orchestrator.Results.load_summaries
           Orchestrator.Results.comparison].
      exists (sm :: summaries), ticks'. rewrite <- app_assoc. split; [done|].
      constructor; [|done].
      unfold loaded. cbn [fst snd]. by rewrite Hlist.
    + assert (batches table_name = []) as ->
        by (by destruct (batches table_name); [|destruct Heq]).
      unfold mbind at 1, M_bind at 1. unfold mret at 1, M_ret at 1.
      edestruct IH as (summaries & ticks' & Hrest & HF);
        [| |rewrite Hrest]; [reflexivity | reflexivity |].
      by exists summaries, ticks'.
Qed.

End Pipeline.

Lemma load_phase_run `{Py.Runtime} config load_only fs split s :
  let batches := batch_list config load_only fs split in
  (forall table_name, Forall (fun p => is_Some (fs !! p)) (batches table_name)) ->
  Loader.files (Orchestrator.world s) = fs ->
  Orchestrator.Results.split_results (Orchestrator.results s) = split ->
  exists summaries ticks',
    Orchestrator.load_phase config load_only s
    = Return true
        {| Orchestrator.world :=
             {| Loader.files := fs; Loader.ticks := ticks' |};
           Orchestrator.results :=
             Orchestrator.Results.mk _
               (Orchestrator.Results.timestamp (Orchestrator.results s))
               (Orchestrator.Results.warehouse_size (Orchestrator.results s))
               split
               (Orchestrator.Results.load_summaries (Orchestrator.results s)
                ++ summaries)
               (Orchestrator.Results.comparison (Orchestrator.results s)) |}
    /\ Forall2 (loaded batches)
               (filter (fun cfg => batches cfg.2 <> [])
                       (Orchestrator.Config.file_configs config))
               summaries.
Proof.
  intros batches Hexist Hfs Hsplit. unfold Orchestrator.load_phase. cbv zeta.
  unfold try_except, mbind, M_bind.
  edestruct (load_tables_run) with (s := s)
    as (summaries & ticks' & Hrun & HF); [exact Hexist | done | done|].
  rewrite Hrun. by exists summaries, ticks'.
Qed.

(** [split_multiple_files] always returns, and what it records is on the
    disk it leaves. *)
Lemma split_multiple_files_returns file_configs target_directory fs :
  exists split fs1,
    split_multiple_files file_configs target_directory fs = Return split fs1
    /\ forall table_name files,
         dict_get table_name split = Some files ->
         Forall (fun p => is_Some (fs1 !! p)) files.
Proof.
  unfold split_multiple_files. rewrite process_configs_foldl.
  eexists _, _. split; [reflexivity|].
  by apply foldl_after_config_recorded.
Qed.

(** X21. A run with neither flag set never takes the [except] branch of
    the load phase. It returns with the mapping of
    [split_multiple_files] as its split results and, for every config
    whose table has a non-empty list in that mapping, in the order of
    the configs, one summary with the table name and batch size of the
    config that lists the files of the mapping in their order and
    counts 10000 rows for each. Configs whose table has no batch files
    are skipped without a summary. The comparison is present exactly
    when there is a summary, and the load phase changes no file. *)
Theorem pipeline_loads_split_results `{Py.Runtime}
    (config : Orchestrator.Config.t) (w : Loader.world) split fs1 :
  let batches := batch_list config false fs1 split in
  split_multiple_files (Orchestrator.Config.file_configs config)
                       (Orchestrator.target_dir config) (Loader.files w)
  = Return split fs1 ->
  exists r ticks',
    Orchestrator.run_batch_loading_pipeline config false false w
    = Return r {| Loader.files := fs1; Loader.ticks := ticks' |}
    /\ Orchestrator.Results.timestamp r = Py.clock (Loader.ticks w)
    /\ Orchestrator.Results.split_results r = split
    /\ Forall2 (loaded batches)
               (filter (fun cfg => batches cfg.2 <> [])
                       (Orchestrator.Config.file_configs config))
               (Orchestrator.Results.load_summaries r)
    /\ Orchestrator.Results.comparison r
       = final_comparison (Orchestrator.Results.load_summaries r).
Proof.
  intros batches Hsplit.
  destruct (split_multiple_files_returns
              (Orchestrator.Config.file_configs config)
              (Orchestrator.target_dir config) (Loader.files w))
    as (split' & fs1' & Hsplit' & Hrecorded).
  rewrite Hsplit in Hsplit'. injection Hsplit' as <- <-.
  unfold Orchestrator.run_batch_loading_pipeline. cbv zeta.
  unfold mbind at 1, M_bind at 1. unfold Loader.now at 1.
  cbn [negb]. unfold mbind at 1, M_bind at 1. unfold Loader.on_files.
  cbn [Loader.files Loader.ticks]. rewrite Hsplit.
  edestruct (load_phase_run config false fs1 split) as
    (summaries & ticks' & Hrun & HF); [| | |rewrite Hrun].
  - intros table_name. unfold batch_list.
    destruct (dict_get table_name split) as [files|] eqn:Hget; [|constructor].
    by apply (Hrecorded table_name).
  - reflexivity.
  - reflexivity.
  - cbn [Orchestrator.world Orchestrator.results
         Orchestrator.Results.load_summaries app].
    eexists _, ticks'. split; [reflexivity|].
    by destruct summaries.
Qed.

(** X22. A load-only run never takes the [except] branch either, and
    changes no file. Its split results are empty, and it produces, in
    the order of the configs, one summary for every config whose table
    directory holds matching batch files; the summary lists these files
    in ascending order of their paths. *)
Theorem pipeline_load_only `{Py.Runtime}
    (config : Orchestrator.Config.t) (w : Loader.world) :
  let batches := batch_list config true (Loader.files w) [] in
  exists r ticks',
    Orchestrator.run_batch_loading_pipeline config false true w
    = Return r {| Loader.files := Loader.files w; Loader.ticks := ticks' |}
    /\ Orchestrator.Results.timestamp r = Py.clock (Loader.ticks w)
    /\ Orchestrator.Results.split_results r = []
    /\ Forall2 (loaded batches)
               (filter (fun cfg => batches cfg.2 <> [])
                       (Orchestrator.Config.file_configs config))
               (Orchestrator.Results.load_summaries r)
    /\ Orchestrator.Results.comparison r
       = final_comparison (Orchestrator.Results.load_summaries r).
Proof.
  intros batches.
  unfold Orchestrator.run_batch_loading_pipeline. cbv zeta.
  unfold mbind at 1, M_bind at 1. unfold Loader.now at 1.
  cbn [negb]. unfold mbind at 1, M_bind at 1. unfold mret at 1, M_ret at 1.
  edestruct (load_phase_run config true (Loader.files w) []) as
    (summaries & ticks' & Hrun & HF); [| | |rewrite Hrun].
  - intros table_name. unfold batch_list. apply Forall_forall.
    by intros p [Hp _]%elem_of_existing_batch_files.
  - reflexivity.
  - reflexivity.
  - cbn [Orchestrator.world Orchestrator.results
         Orchestrator.Results.load_summaries app].
    eexists _, ticks'. split; [reflexivity|].
    by destruct summaries.
Qed.

(** X23. With [split_only] the run stops after the split phase: it reads
    the clock once, loads nothing and compares nothing. With both flags
    set nothing is split either, and the files are left as they were. *)
Theorem pipeline_split_only `{Py.Runtime}
    (config : Orchestrator.Config.t) (load_only : bool) (w : Loader.world) :
  exists r fs1,
    Orchestrator.run_batch_loading_pipeline config true load_only w
    = Return r {| Loader.files := fs1; Loader.ticks := S (Loader.ticks w) |}
    /\ Orchestrator.Results.load_summaries r = []
    /\ Orchestrator.Results.comparison r = None
    /\ (if load_only
        then Orchestrator.Results.split_results r = [] /\ fs1 = Loader.files w
        else split_multiple_files (Orchestrator.Config.file_configs config)
                                  (Orchestrator.target_dir config)
                                  (Loader.files w)
             = Return (Orchestrator.Results.split_results r) fs1).
Proof.
  unfold Orchestrator.run_batch_loading_pipeline. cbv zeta.
  unfold mbind at 1, M_bind at 1. unfold Loader.now at 1.
  destruct load_only; cbn [negb].
  - by eexists _, _.
  - destruct (split_multiple_files_returns
                (Orchestrator.Config.file_configs config)
                (Orchestrator.target_dir config) (Loader.files w))
      as (split & fs1 & Hsplit & _).
    unfold mbind at 1, M_bind at 1. unfold Loader.on_files.
    cbn [Loader.files Loader.ticks]. rewrite Hsplit.
    by eexists _, _.
Qed.

(** ** The properties of the loader and the pipeline on the sample data *)

Lemma load_table_batches_outcome_witness :
  (exists s,
     Loader.load_table_batches (H := LoadFixture.runtime) LoadFixture.loader
       "orders" [Sample.batch_1 "orders"; Sample.batch_1 "items"] 1
       LoadFixture.split_world
     = Return s {| Loader.files := Fixture.three_disk; Loader.ticks := 4 |}
     /\ Loader.TableLoadSummary.total_batches s = 2%nat
     /\ Loader.TableLoadSummary.total_rows_loaded s = 20000)
  /\ (exists w',
        Loader.load_table_batches (H := LoadFixture.runtime) LoadFixture.loader
          "orders" [Sample.batch_1 "orders"; Sample.batch_2 "orders"] 1
          LoadFixture.split_world
        = Raise FileNotFoundError w').
Proof.
  destruct (load_table_batches_outcome (H := LoadFixture.runtime)
              LoadFixture.loader "orders"
              [Sample.batch_1 "orders"; Sample.batch_1 "items"] 1
              LoadFixture.split_world) as [Hreturns _].
  destruct (load_table_batches_outcome (H := LoadFixture.runtime)
              LoadFixture.loader "orders"
              [Sample.batch_1 "orders"; Sample.batch_2 "orders"] 1
              LoadFixture.split_world) as [_ Hraises].
  split.
  - destruct Hreturns as (s & Hrun & _ & _ & Hcount & Hrows & _).
    + repeat constructor; by eexists.
    + exists s. split; [exact Hrun|]. split; [exact Hcount | exact Hrows].
  - destruct Hraises as (w' & Hrun & _).
    + right. by left.
    + by exists w'.
Defined.

Lemma ltb_transitive (a b c : Z) :
  (a <? b) = true -> (b <? c) = true -> (a <? c) = true.
Proof. rewrite !Z.ltb_lt. lia. Qed.

Lemma ltb_cotransitive (a b c : Z) :
  (a <? b) = true -> (a <? c) = true \/ (c <? b) = true.
Proof. rewrite !Z.ltb_lt. lia. Qed.

Lemma fastest_table_first_minimal_witness :
  exists before s after,
    LoadFixture.summaries = before ++ s :: after
    /\ Loader.Comparison.fastest_table
         (Loader.compare_loading_performance LoadFixture.summaries)
       = Some (Loader.TableLoadSummary.table_name s)
    /\ Forall (fun x => Py.lt
                          (Loader.TableLoadSummary.total_duration_seconds s)
                          (Loader.TableLoadSummary.total_duration_seconds x)
                        = true) before
    /\ Forall (fun x => Py.lt
                          (Loader.TableLoadSummary.total_duration_seconds x)
                          (Loader.TableLoadSummary.total_duration_seconds s)
                        = false) after.
Proof.
  apply (fastest_table_first_minimal (H := LoadFixture.runtime)
           LoadFixture.summaries).
  - intros x y z _ _ _. apply ltb_transitive.
  - intros x y z _ _ _. apply ltb_cotransitive.
  - discriminate.
Defined.

Lemma highest_throughput_first_maximal_witness :
  exists before s after,
    LoadFixture.summaries = before ++ s :: after
    /\ Loader.Comparison.highest_throughput
         (Loader.compare_loading_performance LoadFixture.summaries)
       = Some (Loader.TableLoadSummary.table_name s)
    /\ Forall (fun x => Py.lt
                          (Loader.TableLoadSummary.throughput_mb_per_second x)
                          (Loader.TableLoadSummary.throughput_mb_per_second s)
                        = true) before
    /\ Forall (fun x => Py.lt
                          (Loader.TableLoadSummary.throughput_mb_per_second s)
                          (Loader.TableLoadSummary.throughput_mb_per_second x)
                        = false) after.
Proof.
  apply (highest_throughput_first_maximal (H := LoadFixture.runtime)
           LoadFixture.summaries).
  - intros x y z _ _ _. apply ltb_transitive.
  - intros x y z _ _ _. apply ltb_cotransitive.
  - discriminate.
Defined.

(** On the sample summaries the fastest table and the one of highest
    throughput are both the second: the third ties with it. *)
Example fastest_and_highest_on_sample :
  Loader.Comparison.fastest_table
    (Loader.compare_loading_performance LoadFixture.summaries) = Some "b"%string
  /\ Loader.Comparison.highest_throughput
       (Loader.compare_loading_performance LoadFixture.summaries)
     = Some "b"%string.
Proof. split; reflexivity. Qed.



Lemma pipeline_loads_split_results_witness :
  exists r ticks',
    Orchestrator.run_batch_loading_pipeline (H := LoadFixture.runtime)
      LoadFixture.config false false LoadFixture.world
    = Return r {| Loader.files := Fixture.three_disk; Loader.ticks := ticks' |}
    /\ Orchestrator.Results.timestamp r = 0
    /\ Orchestrator.Results.split_results r = LoadFixture.three_split
    /\ Forall2 (loaded (batch_list LoadFixture.config false Fixture.three_disk
                                   LoadFixture.three_split))
               (filter (fun cfg => batch_list LoadFixture.config false
                                     Fixture.three_disk LoadFixture.three_split
                                     cfg.2 <> [])
                       Fixture.three_configs)
               (Orchestrator.Results.load_summaries r)
    /\ Orchestrator.Results.comparison r
       = final_comparison (Orchestrator.Results.load_summaries r).
Proof.
  apply (pipeline_loads_split_results (H := LoadFixture.runtime)
           LoadFixture.config LoadFixture.world LoadFixture.three_split
           Fixture.three_disk).
  reflexivity.
Defined.
